(** * SpotMan core: a shallow embedding of [spotman_core.py] and its properties

    The Python module drives the EC2 API through boto3.  Remote calls are
    modelled as oracles returning a [result] (a value or a raised exception);
    the code around them (filters, loops, retries, guards) is translated
    statement by statement. *)

From Stdlib Require Import String Ascii List Bool ZArith Lia.
From Stdlib Require QArith.QArith_base.
From Stdlib Require Import Sorting.Sorted Sorting.Permutation.
Import ListNotations.
Open Scope string_scope.
Open Scope list_scope.

(** ** Python exceptions and results of calls *)

(** The exceptions the module distinguishes: botocore's [ClientError] (with
    its error code), the network/credential errors caught by the retry
    decorator ([NoCredentialsError], [EndpointConnectionError],
    [ConnectTimeoutError]), any other [Exception], and [SystemExit] raised by
    [sys.exit], which [except Exception] does not catch. *)
Inductive exn :=
| ClientError (code : string)
| ConnectionError
| OtherException
| SystemExit.

Inductive result (A : Type) :=
| Return (a : A)
| Raise (e : exn).
Arguments Return {A} a.
Arguments Raise {A} e.

(** [except Exception] catches everything but [SystemExit]. *)
Definition is_Exception (e : exn) : bool :=
  match e with SystemExit => false | _ => true end.

(** ** get_spot_prices *)
Module SpotPrices.

(** One row of [SpotPriceHistory] as returned by
    [describe_spot_price_history]. *)
Record spot_history_item := {
  InstanceType : string;
  AvailabilityZone : string;
  SpotPrice : string;
  Timestamp : Z }.

(** One returned dict; [spot_price] carries the price text that the code
    passes to [float()]. *)
Record price_entry := {
  instance_type : string;
  availability_zone : string;
  spot_price : string;
  timestamp : Z }.

Definition key := (string * string)%type.

Definition item_key (it : spot_history_item) : key :=
  (InstanceType it, AvailabilityZone it).

Definition entry_key (e : price_entry) : key :=
  (instance_type e, availability_zone e).

Definition key_eqb (a b : key) : bool :=
  String.eqb (fst a) (fst b) && String.eqb (snd a) (snd b).

(** Python's ordering of the tuple [(instance_type, availability_zone)]:
    lexicographic, each component by code points. *)
Definition key_compare (a b : key) : comparison :=
  match String.compare (fst a) (fst b) with
  | Eq => String.compare (snd a) (snd b)
  | c => c
  end.

Definition entry_of_item (it : spot_history_item) : price_entry :=
  {| instance_type := InstanceType it;
     availability_zone := AvailabilityZone it;
     spot_price := SpotPrice it;
     timestamp := Timestamp it |}.

(** The loop filling [latest_prices]: a Python dict keeps insertion order,
    so its [values()] are the entries in order of first insertion; a key
    already present is skipped ([if key not in latest_prices]). *)
Fixpoint latest_prices_loop (acc : list price_entry)
    (items : list spot_history_item) : list price_entry :=
  match items with
  | [] => acc
  | it :: rest =>
      if existsb (fun e => key_eqb (entry_key e) (item_key it)) acc
      then latest_prices_loop acc rest
      else latest_prices_loop (acc ++ [entry_of_item it]) rest
  end.

(** [sorted(..., key=lambda x: (x['instance_type'], x['availability_zone']))]:
    a stable ascending sort, written as insertion sort (an element goes
    before the first element whose key is not smaller, so equal keys keep
    their order). *)
Fixpoint insert_by_key (e : price_entry) (l : list price_entry) :=
  match l with
  | [] => [e]
  | h :: t =>
      match key_compare (entry_key e) (entry_key h) with
      | Gt => h :: insert_by_key e t
      | _ => e :: h :: t
      end
  end.

Fixpoint sort_by_key (l : list price_entry) : list price_entry :=
  match l with
  | [] => []
  | h :: t => insert_by_key h (sort_by_key t)
  end.

(** [get_spot_prices] on a successful response with rows [items]. *)
Definition get_spot_prices (items : list spot_history_item) : list price_entry :=
  sort_by_key (latest_prices_loop [] items).

(** The rows of the response for key [k] come first-found: the first row of
    [items] with that key. *)
Definition first_row_for (k : key) (items : list spot_history_item) :=
  find (fun it => key_eqb (item_key it) k) items.

Definition key_lt (a b : price_entry) : Prop :=
  key_compare (entry_key a) (entry_key b) = Lt.

(** Sample rows. *)
Definition row_old : spot_history_item :=
  {| InstanceType := "m5.large"; AvailabilityZone := "us-east-1a";
     SpotPrice := "0.0400"; Timestamp := 1 |}.
Definition row_new : spot_history_item :=
  {| InstanceType := "m5.large"; AvailabilityZone := "us-east-1a";
     SpotPrice := "0.0500"; Timestamp := 2 |}.
Definition row_other : spot_history_item :=
  {| InstanceType := "c7i.4xlarge"; AvailabilityZone := "us-east-1b";
     SpotPrice := "0.3000"; Timestamp := 1 |}.

(** The provider's response lists the rows of each (type, zone) pair newest
    first. *)
Definition newest_first (items : list spot_history_item) : Prop :=
  forall pre it post it',
    items = pre ++ it :: post -> In it' post ->
    item_key it' = item_key it -> (Timestamp it' <= Timestamp it)%Z.

(** The claim's reading of the result, for an input [items]: for every pair
    occurring in the input the output holds exactly one row, and it has the
    largest timestamp among the input rows of that pair. *)
Definition keeps_max_timestamp (items : list spot_history_item) : Prop :=
  forall it, In it items ->
    exists e, filter (fun e => key_eqb (entry_key e) (item_key it))
                     (get_spot_prices items) = [e] /\
      forall it', In it' items -> item_key it' = item_key it ->
        (Timestamp it' <= timestamp e)%Z.

End SpotPrices.

(** ** Instance resolution across regions *)
Module Resolve.

(** The fields of an instance description the resolver reads. *)
Record instance := {
  InstanceId : string;
  StateName : string }.

(** The attributes of [AWSInstanceManager] the resolver reads or writes:
    [self.region], the regions of [self.ec2_client] and [self.ec2], the
    session's profile and the keys of [self.regions_config['regions']]
    (directory order). *)
Record manager := {
  region : string;
  ec2_client_region : string;
  ec2_resource_region : string;
  session_profile : option string;
  regions_config_keys : list string }.

(** The remote side: [describe_instances] with the name (and state) filter
    sent to a region, flattened over reservations; the constructor
    [AWSInstanceManager(region=r, ...)] for another region (it calls
    [sys.exit(1)] when its clients cannot be created); and the two client
    constructors used when switching region. *)
Record env := {
  describe_by_name : string -> string -> bool -> result (list instance);
  manager_init : string -> result unit;
  client_init : string -> result unit;
  resource_init : string -> result unit }.

(** What a call produced: its result, the manager afterwards, the regions a
    name-filtered listing was sent to (in order), and the candidates printed
    as (id, state, region) on ambiguity. *)
Record outcome := {
  res : result (option string);
  mgr : manager;
  log : list string;
  reported : list (string * string * string) }.

Definition add_log (l : list string) (o : outcome) : outcome :=
  {| res := res o; mgr := mgr o; log := l ++ log o; reported := reported o |}.

Definition finish (r : result (option string)) (m : manager) (l : list string)
    (rep : list (string * string * string)) : outcome :=
  {| res := r; mgr := m; log := l; reported := rep |}.

(** [identifier.startswith('i-') and len(identifier) >= 10] *)
Definition is_instance_id (identifier : string) : bool :=
  String.prefix "i-" identifier && (10 <=? String.length identifier)%nat.

(** [_resolve_instance_in_region]: the listing goes to the region of the
    client it is called on; a [ClientError] yields no instance. *)
Definition resolve_instance_in_region (E : env) (client_region : string)
    (identifier : string) (include_terminated : bool) : result (list instance) :=
  match describe_by_name E client_region identifier include_terminated with
  | Return l => Return l
  | Raise (ClientError _) => Return []
  | Raise e => Raise e
  end.

(** [[r for r in self.regions_config.get('regions', {}).keys() if r != self.region]] *)
Definition other_regions (m : manager) : list string :=
  filter (fun r => negb (String.eqb r (region m))) (regions_config_keys m).

Definition report (r : string) (i : instance) : string * string * string :=
  (InstanceId i, StateName i, r).

Definition set_region (m : manager) (r : string) : manager :=
  {| region := r; ec2_client_region := ec2_client_region m;
     ec2_resource_region := ec2_resource_region m;
     session_profile := session_profile m;
     regions_config_keys := regions_config_keys m |}.

Definition set_client (m : manager) (r : string) : manager :=
  {| region := region m; ec2_client_region := r;
     ec2_resource_region := ec2_resource_region m;
     session_profile := session_profile m;
     regions_config_keys := regions_config_keys m |}.

Definition set_resource (m : manager) (r : string) : manager :=
  {| region := region m; ec2_client_region := ec2_client_region m;
     ec2_resource_region := r;
     session_profile := session_profile m;
     regions_config_keys := regions_config_keys m |}.

(** The [for region in other_regions] loop; its body runs under
    [try ... except Exception: continue], so every exception but
    [SystemExit] moves on to the next region.  The assignment
    [self.region = region] happens before the two client constructors. *)
Fixpoint search_other_regions (E : env) (m : manager) (identifier : string)
    (include_terminated : bool) (regions : list string) : outcome :=
  match regions with
  | [] => finish (Return None) m [] []
  | r :: rs =>
      match manager_init E r with
      | Raise e =>
          if is_Exception e
          then search_other_regions E m identifier include_terminated rs
          else finish (Raise e) m [] []
      | Return _ =>
          match resolve_instance_in_region E r identifier include_terminated with
          | Raise e =>
              if is_Exception e
              then add_log [r] (search_other_regions E m identifier include_terminated rs)
              else finish (Raise e) m [r] []
          | Return [] =>
              add_log [r] (search_other_regions E m identifier include_terminated rs)
          | Return [i] =>
              let m1 := set_region m r in
              match client_init E r with
              | Raise e =>
                  if is_Exception e
                  then add_log [r] (search_other_regions E m1 identifier include_terminated rs)
                  else finish (Raise e) m1 [r] []
              | Return _ =>
                  let m2 := set_client m1 r in
                  match resource_init E r with
                  | Raise e =>
                      if is_Exception e
                      then add_log [r] (search_other_regions E m2 identifier include_terminated rs)
                      else finish (Raise e) m2 [r] []
                  | Return _ =>
                      finish (Return (Some (InstanceId i))) (set_resource m2 r) [r] []
                  end
              end
          | Return insts => finish (Return None) m [r] (map (report r) insts)
          end
      end
  end.

(** [_resolve_instance_identifier]. *)
Definition resolve_instance_identifier (E : env) (m : manager)
    (identifier : string) (include_terminated : bool) : outcome :=
  if is_instance_id identifier then finish (Return (Some identifier)) m [] []
  else
    match resolve_instance_in_region E (ec2_client_region m) identifier
            include_terminated with
    | Raise e => finish (Raise e) m [ec2_client_region m] []
    | Return [] =>
        add_log [ec2_client_region m]
          (search_other_regions E m identifier include_terminated (other_regions m))
    | Return [i] => finish (Return (Some (InstanceId i))) m [ec2_client_region m] []
    | Return insts =>
        finish (Return None) m [ec2_client_region m] (map (report (region m)) insts)
    end.

(** Reading of the search as a sequence of per-region probes, used to state
    properties: a region is passed over, yields instances, or stops the
    search with an exception. *)
Inductive probe :=
| Passed
| Hit (insts : list instance)
| Stop (e : exn).

Inductive candidate :=
| Home
| Other (r : string).

Definition candidates (m : manager) : list candidate :=
  Home :: map Other (other_regions m).

Definition probe_of (E : env) (m : manager) (identifier : string)
    (include_terminated : bool) (c : candidate) : probe * list string :=
  match c with
  | Home =>
      match resolve_instance_in_region E (ec2_client_region m) identifier
              include_terminated with
      | Raise e => (Stop e, [ec2_client_region m])
      | Return [] => (Passed, [ec2_client_region m])
      | Return insts => (Hit insts, [ec2_client_region m])
      end
  | Other r =>
      match manager_init E r with
      | Raise e => (if is_Exception e then Passed else Stop e, [])
      | Return _ =>
          match resolve_instance_in_region E r identifier include_terminated with
          | Raise e => (if is_Exception e then Passed else Stop e, [r])
          | Return [] => (Passed, [r])
          | Return insts => (Hit insts, [r])
          end
      end
  end.

Definition candidate_region (m : manager) (c : candidate) : string :=
  match c with Home => region m | Other r => r end.

(** A concrete setting: home region us-east-1, no instance named "web" at
    home, two in us-west-2 and one in eu-west-1. *)
Definition web1 : instance := {| InstanceId := "i-0aaaaaaaaaaaaaaa1"; StateName := "running" |}.
Definition web2 : instance := {| InstanceId := "i-0aaaaaaaaaaaaaaa2"; StateName := "stopped" |}.
Definition web3 : instance := {| InstanceId := "i-0bbbbbbbbbbbbbbb3"; StateName := "running" |}.

Definition ex_env : env := {|
  describe_by_name := fun r name _ =>
    if negb (String.eqb name "web") then Return []
    else if String.eqb r "us-west-2" then Return [web1; web2]
    else if String.eqb r "eu-west-1" then Return [web3]
    else Return [];
  manager_init := fun _ => Return tt;
  client_init := fun _ => Return tt;
  resource_init := fun _ => Return tt |}.

Definition ex_mgr : manager := {|
  region := "us-east-1"; ec2_client_region := "us-east-1";
  ec2_resource_region := "us-east-1"; session_profile := None;
  regions_config_keys := ["us-east-1"; "us-west-2"; "eu-west-1"] |}.

End Resolve.

(** ** AWSErrorHandler *)
Module Retry.

Definition Q := QArith_base.Q.

Definition RETRYABLE_ERRORS : list string :=
  ["Throttling"; "RequestLimitExceeded"; "ServiceUnavailable"; "InternalError";
   "InternalFailure"; "ServiceUnavailable"; "SlowDown"].

Definition PERMANENT_ERRORS : list string :=
  ["InvalidParameterValue"; "InvalidInstanceID.NotFound";
   "InvalidInstanceID.Malformed"; "UnauthorizedOperation";
   "InvalidUserID.NotFound"; "InvalidGroupId.NotFound";
   "InvalidKeyPair.NotFound"; "InvalidAMIID.NotFound";
   "InvalidSubnetID.NotFound"; "InvalidVpcID.NotFound";
   "InvalidSecurityGroupID.NotFound"; "InstanceLimitExceeded";
   "InsufficientInstanceCapacity"; "InvalidInstanceType";
   "InvalidAvailabilityZone"; "InvalidParameterCombination"].

Definition should_retry (error_code : string) : bool :=
  existsb (String.eqb error_code) RETRYABLE_ERRORS.

Definition is_permanent_error (error_code : string) : bool :=
  existsb (String.eqb error_code) PERMANENT_ERRORS.

Inductive error_class := Retryable | Permanent | Unknown.

(** The three branches of [handle_aws_error]. *)
Definition classify (error_code : string) : error_class :=
  if should_retry error_code then Retryable
  else if is_permanent_error error_code then Permanent
  else Unknown.

(** [handle_aws_error] returns whether to retry. *)
Definition handle_aws_error (error_code : string) : bool :=
  match classify error_code with Retryable => true | _ => false end.

(** What the wrapper does, in order: start an attempt, the remote calls the
    wrapped function made during it, and [time.sleep]. *)
Inductive event (C : Type) :=
| Attempt (k : nat)
| Call (c : C)
| Sleep (w : Q).
Arguments Attempt {C} k.
Arguments Call {C} c.
Arguments Sleep {C} w.

(** [delay * (2 ** attempt)] *)
Definition backoff (delay : Q) (attempt : nat) : Q :=
  QArith_base.Qmult delay (QArith_base.inject_Z (2 ^ Z.of_nat attempt)).

Section Wrapper.
Context {St A C : Type}.
(** The wrapped function, on attempt [k] from state [s]: its result, the
    state afterwards (effects of a failed attempt stay) and its calls. *)
Variable func : nat -> St -> result A * St * list C.
Variable max_retries : nat.
Variable delay : Q.

(** [for attempt in range(max_retries + 1)] with the two [except] clauses;
    [fuel] counts the attempts left.  Attempt [max_retries] returns or
    raises in every branch, so the fall-through after the loop is never
    reached; it is given as the re-raise of an exception. *)
Fixpoint retry_loop (attempt fuel : nat) (s : St) : result A * St * list (event C) :=
  match fuel with
  | O => (Raise OtherException, s, [])
  | S fuel' =>
      let '(r, s', calls) := func attempt s in
      let here := Attempt attempt :: map Call calls in
      let retry := fun (_ : unit) =>
        let '(r2, s2, t2) := retry_loop (S attempt) fuel' s' in
        (r2, s2, here ++ Sleep (backoff delay attempt) :: t2) in
      match r with
      | Return a => (Return a, s', here)
      | Raise (ClientError code) =>
          if Nat.eqb attempt max_retries then (r, s', here)
          else if negb (handle_aws_error code) then (r, s', here)
          else retry tt
      | Raise ConnectionError =>
          if Nat.eqb attempt max_retries then (r, s', here)
          else retry tt
      | Raise _ => (r, s', here)
      end
  end.

Definition retry_on_aws_error (s : St) : result A * St * list (event C) :=
  retry_loop 0 (S max_retries) s.

End Wrapper.

(** A function failing with the given error code on every attempt. *)
Definition always_fails (code : string) : nat -> unit -> result unit * unit * list unit :=
  fun _ _ => (Raise (ClientError code), tt, [tt]).

End Retry.

(** ** create_instance *)
Module Create.

Definition Q := QArith_base.Q.

(** The values a YAML profile may hold for [spot_price]: absent or null,
    a number, or a string; a call-time override is a float. *)
Inductive pyval :=
| PyNone
| PyFloat (q : Q)
| PyStr (s : string).

Definition truthy (v : pyval) : bool :=
  match v with
  | PyNone => false
  | PyFloat q => negb (QArith_base.Qeq_bool q (QArith_base.inject_Z 0))
  | PyStr s => negb (String.eqb s "")
  end.

(** The remote calls [create_instance] makes, in order; [RunInstances] is
    the only one that changes anything remotely.  ([_add_ssh_config_entry]
    after the waiter only reads the instance and edits a local file.) *)
Record market_options := {
  MarketType : string;
  SpotInstanceType : string;
  InstanceInterruptionBehavior : string;
  MaxPrice : option pyval }.

Record run_params := {
  ImageId : string;
  InstanceType : string;
  KeyName : option string;
  SubnetId : option string;
  Placement : option string;
  DryRun : bool;
  InstanceMarketOptions : option market_options;
  HibernationOptions : bool }.

Inductive call :=
| DescribeInstances
| DescribeImages
| DescribeSubnets
| RunInstances (p : run_params)
| WaitInstanceRunning (instance_id : string).

Definition is_mutating (c : call) : bool :=
  match c with RunInstances _ => true | _ => false end.

(** A small monad: the calls made so far, and a result or an exception. *)
Definition M (A : Type) := list call -> result A * list call.

Definition ret {A} (a : A) : M A := fun l => (Return a, l).
Definition raise {A} (e : exn) : M A := fun l => (Raise e, l).
Definition bind {A B} (m : M A) (k : A -> M B) : M B :=
  fun l => match m l with
           | (Return a, l') => k a l'
           | (Raise e, l') => (Raise e, l')
           end.
(** A remote call: logged, then its answer. *)
Definition remote {A} (c : call) (r : result A) : M A := fun l => (r, l ++ [c]).
(** A local step that may raise (reading the profile file). *)
Definition local {A} (r : result A) : M A := fun l => (r, l).
Definition try_except {A} (m : M A) (h : exn -> M A) : M A :=
  fun l => match m l with
           | (Raise e, l') => h e l'
           | x => x
           end.

Notation "x <- m ;; k" := (bind m (fun x => k))
  (at level 61, m at next level, right associativity).

Definition str_truthy (o : option string) : bool :=
  match o with Some s => negb (String.eqb s "") | None => false end.

(** The profile keys [create_instance] reads that bear on the launch
    request; [None] is an absent key. *)
Record profile := {
  p_instance_type : option string;
  p_ami_id : option string;
  p_os_type : option string;
  p_key_name : option string;
  p_subnet_id : option string;
  p_spot_instance : bool;
  p_hibernation_enabled : bool;
  p_spot_price : pyval;
  p_ami_name : option string }.

(** [profile['spot_price'] = spot_price] *)
Definition set_spot_price (p : profile) (v : pyval) : profile :=
  {| p_instance_type := p_instance_type p; p_ami_id := p_ami_id p;
     p_os_type := p_os_type p; p_key_name := p_key_name p;
     p_subnet_id := p_subnet_id p; p_spot_instance := p_spot_instance p;
     p_hibernation_enabled := p_hibernation_enabled p;
     p_spot_price := v; p_ami_name := p_ami_name p |}.

(** An instance of the home region as [describe_instances] reports it. *)
Record inst_desc := {
  d_id : string;
  d_name : option string;
  d_state : string }.

(** The world [create_instance] talks to.  [home_reservations] are the
    home region's instances grouped by reservation; [name_check_error] is
    an exception raised by the duplicate-name listing, if any;
    [latest_ami] is the (retried) [_get_latest_ami]; [default_subnet] is
    [_get_default_vpc_subnet] (it absorbs [ClientError]); [region_key] is
    [region_config.get('key_name') or region_config.get('default_key')] for
    the home region, [None] when [regions_config] is empty. *)
Record cenv := {
  home_reservations : list (list inst_desc);
  name_check_error : option exn;
  load_profile : string -> result profile;
  latest_ami : string -> option string -> result string;
  default_subnet : string -> option string;
  region_key : option string;
  run_instances : run_params -> result string;
  wait_running : string -> result unit }.

Definition live_states : list string := ["pending"; "running"; "stopping"; "stopped"].

(** The two filters of the duplicate-name listing. *)
Definition matches_name (name : string) (d : inst_desc) : bool :=
  match d_name d with Some n => String.eqb n name | None => false end &&
  existsb (String.eqb (d_state d)) live_states.

Definition describe_instances_named (E : cenv) (name : string)
    : result (list (list inst_desc)) :=
  match name_check_error E with
  | Some e => Raise e
  | None => Return (map (filter (matches_name name)) (home_reservations E))
  end.

(** [if reservation['Instances']] *)
Definition has_instances (insts : list inst_desc) : bool :=
  match insts with [] => false | _ :: _ => true end.

(** [_instance_name_exists] *)
Definition instance_name_exists (E : cenv) (name : string) : M bool :=
  try_except
    (resp <- remote DescribeInstances (describe_instances_named E name) ;;
     ret (existsb has_instances resp))
    (fun e => match e with ClientError _ => ret false | _ => raise e end).

(** The spot options of the launch request. *)
Definition spot_options (hibernation_enabled : bool) (spot_price : pyval)
    : market_options :=
  {| MarketType := "spot";
     SpotInstanceType := if hibernation_enabled then "persistent" else "one-time";
     InstanceInterruptionBehavior :=
       if hibernation_enabled then "hibernate" else "terminate";
     (* [if spot_price: spot_options['MaxPrice'] = str(spot_price)];
        the field holds the value given to [str()] *)
     MaxPrice :=
       if truthy spot_price then Some spot_price else None |}.

Definition build_run_params (profile : profile) (ami_id instance_type : string)
    (key_name subnet_id availability_zone : option string) (dry_run : bool)
    : run_params :=
  {| ImageId := ami_id;
     InstanceType := instance_type;
     KeyName := if str_truthy key_name then key_name else None;
     SubnetId := if str_truthy subnet_id then subnet_id else None;
     Placement := if str_truthy availability_zone then availability_zone else None;
     DryRun := dry_run;
     InstanceMarketOptions :=
       if p_spot_instance profile
       then Some (spot_options (p_hibernation_enabled profile) (p_spot_price profile))
       else None;
     HibernationOptions := p_hibernation_enabled profile |}.

Definition default_to (o : option string) (d : string) : string :=
  match o with Some v => v | None => d end.

(** The body of [create_instance] after the duplicate-name check. *)
Definition launch_steps (E : cenv) (profile_name instance_name : string)
    (spot_price : option Q) (dry_run : bool) (availability_zone : option string)
    : M (option string) :=
  profile0 <- local (load_profile E profile_name) ;;
  let instance_type := default_to (p_instance_type profile0) "t3.micro" in
  let os_type := default_to (p_os_type profile0) "ubuntu" in
  let profile :=
    match spot_price with
    | Some q => set_spot_price profile0 (PyFloat q)
    | None => profile0
    end in
  ami_id <- (if str_truthy (p_ami_id profile0)
             then ret (default_to (p_ami_id profile0) "")
             else remote DescribeImages
                    (latest_ami E os_type (p_ami_name profile))) ;;
  subnet_id <- (if negb (str_truthy (p_subnet_id profile0))
                   && str_truthy availability_zone
                then remote DescribeSubnets
                       (Return (default_subnet E (default_to availability_zone "")))
                else ret (p_subnet_id profile0)) ;;
  if negb (str_truthy (p_subnet_id profile0)) && str_truthy availability_zone
     && negb (str_truthy subnet_id)
  then ret None
  else
  let key_name :=
    if str_truthy (p_key_name profile0) then p_key_name profile0 else region_key E in
  if negb (str_truthy key_name) then ret None
  else
  let params := build_run_params profile ami_id instance_type key_name subnet_id
                  availability_zone dry_run in
  if dry_run then ret None
  else
  instance_id <- remote (RunInstances params) (run_instances E params) ;;
  _ <- try_except (remote (WaitInstanceRunning instance_id) (wait_running E instance_id))
         (fun e => if is_Exception e then ret tt else raise e) ;;
  ret (Some instance_id).

(** [create_instance] ([app_class] only feeds the tags, which are not
    modelled): its body runs under [except ClientError] and
    [except Exception], both returning [None].  No exception leaves it, so
    the retry decorator around it never retries. *)
Definition create_instance (E : cenv) (profile_name instance_name : string)
    (spot_price : option Q) (dry_run : bool) (availability_zone : option string)
    : M (option string) :=
  try_except
    (dup <- instance_name_exists E instance_name ;;
     if dup then ret None
     else launch_steps E profile_name instance_name spot_price dry_run
            availability_zone)
    (fun e => if is_Exception e then ret None else raise e).

(** The price the launch request is built from: the call-time override
    when given, else the profile's value. *)
Definition effective_spot_price (p : profile) (spot_price : option Q) : pyval :=
  match spot_price with Some q => PyFloat q | None => p_spot_price p end.

(** The claim's reading: a spot price is specified when the profile has a
    [spot_price] value or the call gives one. *)
Definition spot_price_specified (p : profile) (spot_price : option Q) : bool :=
  match spot_price with
  | Some _ => true
  | None => match p_spot_price p with PyNone => false | _ => true end
  end.

(** A spot profile with an image and a key, and no price. *)
Definition ex_spot_profile : profile := {|
  p_instance_type := Some "c7i.4xlarge"; p_ami_id := Some "ami-0123456789abcdef0";
  p_os_type := Some "ubuntu"; p_key_name := Some "ops-key"; p_subnet_id := None;
  p_spot_instance := true; p_hibernation_enabled := false;
  p_spot_price := PyNone; p_ami_name := None |}.

(** A home region that may hold a running instance named "web", with the
    duplicate-name listing possibly failing. *)
Definition ex_cenv (dup : bool) (check_error : option exn) : cenv := {|
  home_reservations :=
    if dup then [[{| d_id := "i-0e0e0e0e0e0e0e0e1"; d_name := Some "web";
                     d_state := "running" |}]] else [];
  name_check_error := check_error;
  load_profile := fun _ => Return ex_spot_profile;
  latest_ami := fun _ _ => Return "ami-0fedcba9876543210";
  default_subnet := fun _ => Some "subnet-0a1b2c3d";
  region_key := None;
  run_instances := fun _ => Return "i-0f0f0f0f0f0f0f0f2";
  wait_running := fun _ => Return tt |}.

End Create.

(** ** _get_latest_ami: the image filters *)
Module Ami.

(** A [{'Name': ..., 'Values': [...]}] filter. *)
Definition filter := (string * list string)%type.

Definition image_filters (name owner : string) : list filter :=
  [("name", [name]); ("owner-id", [owner]); ("state", ["available"]);
   ("architecture", ["x86_64"]); ("virtualization-type", ["hvm"]);
   ("root-device-type", ["ebs"])].

Definition ubuntu_default_filters : list filter :=
  image_filters "ubuntu/images/hvm-ssd/ubuntu-jammy-22.04-amd64-server-*" "099720109477".
Definition amazon_linux_filters : list filter :=
  image_filters "amzn2-ami-hvm-*-x86_64-gp2" "137112412989".
Definition centos_filters : list filter :=
  image_filters "CentOS Linux 7 x86_64 HVM EBS *" "679593333241".

(** The [ami_filters] dict built by [_get_latest_ami]: with a (truthy)
    custom pattern and [os_type == 'ubuntu'] it holds only the ubuntu entry
    with that pattern, otherwise the three built-in entries. *)
Definition ami_filters (os_type : string) (ami_name_pattern : option string)
    : list (string * list filter) :=
  if Create.str_truthy ami_name_pattern && String.eqb os_type "ubuntu"
  then [("ubuntu", image_filters (Create.default_to ami_name_pattern "") "099720109477")]
  else [("ubuntu", ubuntu_default_filters);
        ("amazon-linux", amazon_linux_filters);
        ("centos", centos_filters)].

Fixpoint lookup (k : string) (d : list (string * list filter)) : option (list filter) :=
  match d with
  | [] => None
  | (k', v) :: rest => if String.eqb k k' then Some v else lookup k rest
  end.

(** The filters passed to [describe_images], or the [ValueError] for an
    unsupported OS type. *)
Definition latest_ami_filters (os_type : string) (ami_name_pattern : option string)
    : result (list filter) :=
  match lookup os_type (ami_filters os_type ami_name_pattern) with
  | Some f => Return f
  | None => Raise OtherException
  end.

End Ami.

(** ** terminate_instance *)
Module Terminate.

(** The part of [describe_instances(InstanceIds=[id])] the code reads. *)
Record instance_detail := {
  NameTag : option string;
  SpotInstanceRequestId : option string }.

Inductive call :=
| ListByName (region : string)
| DescribeById (instance_id : string)
| CancelSpotRequest (request_id : string)
| TerminateInstances (instance_id : string).

(** The remote side seen by one attempt; [describe_by_id] answers [None]
    when the response has no reservation (then [[0]] raises). *)
Record tenv := {
  resolver : Resolve.env;
  describe_by_id : string -> result (option instance_detail);
  cancel_spot : string -> result unit;
  terminate : string -> result unit }.

(** The spot-request step: [cancel_spot_instance_requests] under
    [except ClientError] (a warning). *)
Definition cancel_step (T : tenv) (inst : instance_detail) (calls : list call)
    : result unit * list call :=
  if Create.str_truthy (SpotInstanceRequestId inst) then
    let sid := Create.default_to (SpotInstanceRequestId inst) "" in
    let calls' := calls ++ [CancelSpotRequest sid] in
    match cancel_spot T sid with
    | Return _ => (Return tt, calls')
    | Raise (ClientError _) => (Return tt, calls')
    | Raise e => (Raise e, calls')
    end
  else (Return tt, calls).

(** One run of the body of [terminate_instance]: resolution (outside the
    [try]), then describe, cancel and terminate under [except ClientError]
    returning [False]. *)
Definition terminate_attempt (T : tenv) (m : Resolve.manager) (identifier : string)
    : result bool * Resolve.manager * list call :=
  let o := Resolve.resolve_instance_identifier (resolver T) m identifier false in
  let m' := Resolve.mgr o in
  let calls0 := map ListByName (Resolve.log o) in
  match Resolve.res o with
  | Raise e => (Raise e, m', calls0)
  | Return id_opt =>
      if negb (Create.str_truthy id_opt) then (Return false, m', calls0)
      else
      let instance_id := Create.default_to id_opt "" in
      let calls1 := calls0 ++ [DescribeById instance_id] in
      match describe_by_id T instance_id with
      | Raise (ClientError _) => (Return false, m', calls1)
      | Raise e => (Raise e, m', calls1)
      | Return None => (Raise OtherException, m', calls1)
      | Return (Some inst) =>
          match cancel_step T inst calls1 with
          | (Raise e, calls2) => (Raise e, m', calls2)
          | (Return _, calls2) =>
              let calls3 := calls2 ++ [TerminateInstances instance_id] in
              match terminate T instance_id with
              | Return _ => (Return true, m', calls3)
              | Raise (ClientError _) => (Return false, m', calls3)
              | Raise e => (Raise e, m', calls3)
              end
          end
      end
  end.

(** [@retry_on_aws_error(max_retries=3, delay=2.0)] around it; [Tk k] is
    the remote side during attempt [k]. *)
Definition terminate_instance (Tk : nat -> tenv) (m : Resolve.manager)
    (identifier : string) : result bool * Resolve.manager * list (Retry.event call) :=
  Retry.retry_on_aws_error (fun k s => terminate_attempt (Tk k) s identifier)
    3 (QArith_base.inject_Z 2) m.

(** The cancel outcomes the code tolerates: success or a [ClientError]. *)
Definition cancel_tolerated (r : result unit) : bool :=
  match r with
  | Return _ => true
  | Raise (ClientError _) => true
  | Raise _ => false
  end.

(** A spot instance addressed by id whose spot request cannot be cancelled
    because the endpoint is unreachable, on every attempt. *)
Definition ex_tenv : tenv := {|
  resolver := {| Resolve.describe_by_name := fun _ _ _ => Return [];
                 Resolve.manager_init := fun _ => Return tt;
                 Resolve.client_init := fun _ => Return tt;
                 Resolve.resource_init := fun _ => Return tt |};
  describe_by_id := fun _ =>
    Return (Some {| NameTag := Some "web"; SpotInstanceRequestId := Some "sir-0a1b2c3d" |});
  cancel_spot := fun _ => Raise ConnectionError;
  terminate := fun _ => Return tt |}.

(** The same with the provider refusing the cancel. *)
Definition ex_tenv_refused : tenv := {|
  resolver := resolver ex_tenv;
  describe_by_id := describe_by_id ex_tenv;
  cancel_spot := fun _ => Raise (ClientError "InvalidSpotInstanceRequestID.NotFound");
  terminate := fun _ => Return tt |}.

(** The wrapper from attempt [k] on, with the attempts left:
    [terminate_instance] is [terminate_from Tk 0]. *)
Definition terminate_from (Tk : nat -> tenv) (k : nat) (m : Resolve.manager)
    (identifier : string) : result bool * Resolve.manager * list (Retry.event call) :=
  Retry.retry_loop (fun j s => terminate_attempt (Tk j) s identifier)
    3 (QArith_base.inject_Z 2) k (4 - k) m.

(** The endpoint is unreachable during attempt 0; from attempt 1 on the
    provider answers and refuses the cancel. *)
Definition ex_tenv_flaky (k : nat) : tenv :=
  match k with 0 => ex_tenv | _ => ex_tenv_refused end.

End Terminate.

(** ** Python string, dict and sorting helpers *)
Module Py.

Definition nl : ascii := "010"%char.
Definition nl_str : string := String nl EmptyString.

(** [s.startswith(p)] *)
Definition startswith (s p : string) : bool := String.prefix p s.

(** [p in s] on strings: [p] occurs in [s] at some position. *)
Fixpoint contains (p s : string) : bool :=
  String.prefix p s ||
  match s with EmptyString => false | String _ s' => contains p s' end.

(** [s.endswith(suf)] *)
Definition endswith (s suf : string) : bool :=
  (String.length suf <=? String.length s)%nat &&
  String.eqb (String.substring (String.length s - String.length suf)
                (String.length suf) s) suf.

(** [s.split('\n')]; the result is never empty. *)
Fixpoint split_nl (s : string) : list string :=
  match s with
  | EmptyString => [EmptyString]
  | String c s' =>
      if Ascii.eqb c nl then EmptyString :: split_nl s'
      else match split_nl s' with
           | l :: ls => String c l :: ls
           | [] => [String c EmptyString]
           end
  end.

(** [sep.join(l)] *)
Fixpoint join (sep : string) (l : list string) : string :=
  match l with
  | [] => EmptyString
  | [x] => x
  | x :: xs => (x ++ sep ++ join sep xs)%string
  end.

(** [str.isspace] on one (ASCII) character: tab, newline, vertical tab,
    form feed, carriage return, the separators 0x1c-0x1f and space. *)
Definition is_space (c : ascii) : bool :=
  let n := nat_of_ascii c in
  (Nat.leb 9 n && Nat.leb n 13) || (Nat.leb 28 n && Nat.leb n 32).

(** [s.rstrip()] *)
Fixpoint rstrip (s : string) : string :=
  match s with
  | EmptyString => EmptyString
  | String c s' =>
      match rstrip s' with
      | EmptyString => if is_space c then EmptyString else String c EmptyString
      | r => String c r
      end
  end.

(** [s.lower()] on ASCII text. *)
Definition lower_char (c : ascii) : ascii :=
  let n := nat_of_ascii c in
  if Nat.leb 65 n && Nat.leb n 90 then ascii_of_nat (n + 32)%nat else c.

Fixpoint lower (s : string) : string :=
  match s with
  | EmptyString => EmptyString
  | String c s' => String (lower_char c) (lower s')
  end.

Fixpoint spaces (n : nat) : string :=
  match n with O => EmptyString | S n' => String " " (spaces n') end.

(** [s.ljust(w)] *)
Definition ljust (s : string) (w : nat) : string :=
  (s ++ spaces (w - String.length s))%string.

(** [str(n)] of a non-negative integer. *)
Fixpoint string_of_uint (d : Decimal.uint) : string :=
  match d with
  | Decimal.Nil => EmptyString
  | Decimal.D0 d => String "0" (string_of_uint d)
  | Decimal.D1 d => String "1" (string_of_uint d)
  | Decimal.D2 d => String "2" (string_of_uint d)
  | Decimal.D3 d => String "3" (string_of_uint d)
  | Decimal.D4 d => String "4" (string_of_uint d)
  | Decimal.D5 d => String "5" (string_of_uint d)
  | Decimal.D6 d => String "6" (string_of_uint d)
  | Decimal.D7 d => String "7" (string_of_uint d)
  | Decimal.D8 d => String "8" (string_of_uint d)
  | Decimal.D9 d => String "9" (string_of_uint d)
  end.

Definition str_nat (n : nat) : string := string_of_uint (Nat.to_uint n).

(** A dict with string keys, in insertion order. *)
Definition dict (V : Type) := list (string * V).

Definition dict_mem {V} (k : string) (d : dict V) : bool :=
  existsb (fun kv => String.eqb (fst kv) k) d.

(** [d[k] = v]: an existing key keeps its position, a new one goes last. *)
Definition dict_set {V} (k : string) (v : V) (d : dict V) : dict V :=
  if dict_mem k d
  then map (fun kv => if String.eqb (fst kv) k then (k, v) else kv) d
  else d ++ [(k, v)].

Fixpoint dict_get {V} (k : string) (d : dict V) : option V :=
  match d with
  | [] => None
  | (k', v) :: rest => if String.eqb k' k then Some v else dict_get k rest
  end.

Section Sorting.
Context {T K : Type} (key : T -> K) (cmp : K -> K -> comparison).

(** [sorted(l, key=key, reverse=True)]: descending and stable; an element
    is placed after the elements whose key is greater than its own. *)
Fixpoint insert_desc (x : T) (l : list T) : list T :=
  match l with
  | [] => [x]
  | h :: t =>
      match cmp (key h) (key x) with
      | Gt => h :: insert_desc x t
      | _ => x :: h :: t
      end
  end.

Fixpoint sort_desc (l : list T) : list T :=
  match l with
  | [] => []
  | h :: t => insert_desc h (sort_desc t)
  end.

(** [sorted(l, key=key)]: ascending and stable. *)
Fixpoint insert_asc (x : T) (l : list T) : list T :=
  match l with
  | [] => [x]
  | h :: t =>
      match cmp (key x) (key h) with
      | Gt => h :: insert_asc x t
      | _ => x :: h :: t
      end
  end.

Fixpoint sort_asc (l : list T) : list T :=
  match l with
  | [] => []
  | h :: t => insert_asc h (sort_asc t)
  end.

End Sorting.

End Py.

(** ** SpotMan's SSH configuration files *)
Module SshConfig.
Import Py.

(** The loop of [_add_ssh_config_entry] that drops the previous entry of
    [host_name]; [skip] is [skip_until_next_host]. *)
Fixpoint filter_lines (host_name : string) (skip : bool) (lines : list string)
    : list string :=
  match lines with
  | [] => []
  | line :: rest =>
      if startswith line "Host " then
        if String.eqb line ("Host " ++ host_name)%string
        then filter_lines host_name true rest
        else line :: filter_lines host_name false rest
      else if startswith line "# SpotMan managed entry for"
              && contains host_name line
      then filter_lines host_name true rest
      else if skip then filter_lines host_name skip rest
      else line :: filter_lines host_name skip rest
  end.

(** The lines the loop treats as the start of [host_name]'s entry, and the
    [Host] lines of other hosts. *)
Definition is_managed_comment (host_name line : string) : bool :=
  startswith line "# SpotMan managed entry for" && contains host_name line.

Definition other_host_line (host_name line : string) : bool :=
  startswith line "Host " && negb (String.eqb line ("Host " ++ host_name)%string).

(** One item of the profile's [ssh_port_forwards]; ports are YAML
    integers, [None] is an absent key. *)
Record port_forward := {
  local_port : option nat;
  remote_port : option nat;
  remote_host : option string }.

Definition port_truthy (p : option nat) : bool :=
  match p with Some (S _) => true | _ => false end.

Definition port_value (p : option nat) : nat :=
  match p with Some n => n | None => O end.

Definition forward_lines (f : port_forward) : list string :=
  if port_truthy (local_port f) && port_truthy (remote_port f) then
    [("    LocalForward " ++ str_nat (port_value (local_port f)) ++ " " ++
      Create.default_to (remote_host f) "localhost" ++ ":" ++
      str_nat (port_value (remote_port f)))%string]
  else [].

(** [ssh_entry_lines] *)
Definition ssh_entry_lines (instance_id host_name public_ip ssh_user : string)
    (identity_file : option string) (port_forwards : list port_forward)
    : list string :=
  [("# SpotMan managed entry for " ++ host_name ++ " (" ++ instance_id ++ ")")%string;
   ("Host " ++ host_name)%string;
   ("    HostName " ++ public_ip)%string;
   ("    User " ++ ssh_user)%string]
  ++ (if Create.str_truthy identity_file
      then [("    IdentityFile " ++ Create.default_to identity_file "")%string]
      else [])
  ++ ["    StrictHostKeyChecking no"]
  ++ flat_map forward_lines port_forwards.

(** [ssh_entry = '\n'.join(ssh_entry_lines) + '\n'] *)
Definition ssh_entry (lines : list string) : string :=
  (join nl_str lines ++ nl_str)%string.

(** [updated_config] written back, from the file's previous content
    ([""] when it does not exist). *)
Definition updated_config (existing_config host_name entry : string) : string :=
  (rstrip (join nl_str (filter_lines host_name false (split_nl existing_config)))
   ++ nl_str ++ nl_str ++ entry)%string.

(** [_check_ssh_config_exists]; [None] is a missing or unreadable file. *)
Definition check_ssh_config_exists (content : option string) (host_name : string)
    : bool :=
  match content with
  | Some c => contains ("Host " ++ host_name) c
  | None => false
  end.

(** The two files [_ensure_ssh_include_setup] touches, [None] when absent. *)
Record ssh_files := {
  main_config : option string;
  spotman_config : option string }.

Definition spotman_header : string :=
  ("# SpotMan managed SSH configurations" ++ nl_str ++ nl_str)%string.

(** [_ensure_ssh_include_setup]; [write_ok] tells whether opening the main
    config for writing succeeds (otherwise the [except] returns [False]). *)
Definition ensure_ssh_include_setup (spotman_config_path : string) (write_ok : bool)
    (f : ssh_files) : bool * ssh_files :=
  let f1 :=
    match spotman_config f with
    | None => {| main_config := main_config f; spotman_config := Some spotman_header |}
    | Some _ => f
    end in
  let include_line := ("Include " ++ spotman_config_path)%string in
  let add := fun (_ : unit) =>
    let existing_content :=
      match main_config f1 with Some c => c | None => EmptyString end in
    if write_ok
    then (true, {| main_config :=
                     Some (include_line ++ nl_str ++ nl_str ++ existing_content)%string;
                   spotman_config := spotman_config f1 |})
    else (false, f1) in
  match main_config f1 with
  | Some content => if contains include_line content then (true, f1) else add tt
  | None => add tt
  end.

(** The host names used for SSH entries: [create_instance] and
    [update_ssh_config] write [spotman-<Name tag>] (the latter takes the
    first [Name] tag, or ['unknown']); [connect_to_instance] looks up the
    identifier itself, or [spotman-<instance id>] for an identifier starting
    with ['i-']. *)
Definition managed_host_name (instance_name : string) : string :=
  ("spotman-" ++ instance_name)%string.

Fixpoint first_tag (k : string) (tags : list (string * string)) : option string :=
  match tags with
  | [] => None
  | (k', v) :: rest => if String.eqb k' k then Some v else first_tag k rest
  end.

Definition update_host_name (tags : list (string * string)) : string :=
  managed_host_name (match first_tag "Name" tags with Some n => n | None => "unknown" end).

Definition connect_host_name (instance_identifier instance_id : string) : string :=
  if negb (startswith instance_identifier "i-") then instance_identifier
  else ("spotman-" ++ instance_id)%string.

End SshConfig.

(** ** Profiles on disk *)
Module Profiles.
Import Py.

(** [s.rsplit('.', 1)[0]] *)
Fixpoint before_last_dot (s : string) : option string :=
  match s with
  | EmptyString => None
  | String c s' =>
      match before_last_dot s' with
      | Some p => Some (String c p)
      | None => if Ascii.eqb c "." then Some EmptyString else None
      end
  end.

Definition rsplit_dot_head (s : string) : string :=
  match before_last_dot s with Some p => p | None => s end.

Definition is_profile_file (file : string) : bool :=
  endswith file ".yaml" || endswith file ".yml".

(** [list_profiles]; [None] is a missing [profiles] directory, otherwise
    the names [os.listdir] returns. *)
Definition list_profiles (listing : option (list string)) : list string :=
  match listing with
  | None => []
  | Some files =>
      sort_asc (fun s => s) String.compare
        (map rsplit_dot_head (filter is_profile_file files))
  end.

Section Loading.
Context {Doc : Type}.
(** [yaml.load] of a file of the directory: the document ([None] for an
    empty file), or the exception raised while opening or parsing it. *)
Variable load_yaml : string -> result (option Doc).

(** [get_profile] *)
Definition get_profile (files : list string) (profile_name : string)
    : result (option Doc) :=
  let file := (profile_name ++ ".yaml")%string in
  if negb (existsb (String.eqb file) files) then Return None
  else match load_yaml file with
       | Return d => Return d
       | Raise e => if is_Exception e then Return None else Raise e
       end.

(** [load_profile]: [FileNotFoundError] when [get_profile] gives [None]. *)
Definition load_profile (files : list string) (profile_name : string) : result Doc :=
  match get_profile files profile_name with
  | Return (Some d) => Return d
  | Return None => Raise OtherException
  | Raise e => Raise e
  end.
End Loading.

End Profiles.

(** ** list_instances and the tags create_instance writes *)
Module Listing.
Import Py.

(** The fields of an instance of [describe_instances] the listing reads;
    [LaunchTime] as a timestamp. *)
Record ec2_instance := {
  InstanceId : string;
  StateName : string;
  InstanceType : string;
  PublicIpAddress : option string;
  PrivateIpAddress : option string;
  LaunchTime : Z;
  InstanceLifecycle : option string;
  Tags : list (string * string) }.

(** One dict of the result. *)
Record instance_info := {
  i_InstanceId : string;
  i_Name : string;
  i_State : string;
  i_InstanceType : string;
  i_PublicIpAddress : string;
  i_PrivateIpAddress : string;
  i_LaunchTime : Z;
  i_ApplicationClass : string;
  i_Profile : string;
  i_SpotInstance : bool;
  i_HibernationEnabled : bool }.

Definition base_info (i : ec2_instance) : instance_info := {|
  i_InstanceId := InstanceId i;
  i_Name := "N/A";
  i_State := StateName i;
  i_InstanceType := InstanceType i;
  i_PublicIpAddress := Create.default_to (PublicIpAddress i) "N/A";
  i_PrivateIpAddress := Create.default_to (PrivateIpAddress i) "N/A";
  i_LaunchTime := LaunchTime i;
  i_ApplicationClass := "N/A";
  i_Profile := "N/A";
  i_SpotInstance := contains "spot" (Create.default_to (InstanceLifecycle i) "");
  i_HibernationEnabled := false |}.

(** One turn of the tag loop (no [break]: a later tag overrides). *)
Definition apply_tag (info : instance_info) (tag : string * string) : instance_info :=
  let '(k, v) := tag in
  {| i_InstanceId := i_InstanceId info;
     i_Name := if String.eqb k "Name" then v else i_Name info;
     i_State := i_State info;
     i_InstanceType := i_InstanceType info;
     i_PublicIpAddress := i_PublicIpAddress info;
     i_PrivateIpAddress := i_PrivateIpAddress info;
     i_LaunchTime := i_LaunchTime info;
     i_ApplicationClass :=
       if String.eqb k "ApplicationClass" then v else i_ApplicationClass info;
     i_Profile := if String.eqb k "Profile" then v else i_Profile info;
     i_SpotInstance := i_SpotInstance info;
     i_HibernationEnabled :=
       if String.eqb k "HibernationEnabled" then String.eqb (lower v) "true"
       else i_HibernationEnabled info |}.

Definition info_of (i : ec2_instance) : instance_info :=
  fold_left apply_tag (Tags i) (base_info i).

Definition filter := (string * list string)%type.

Definition list_filters (app_class state profile_name : option string)
    (all_instances : bool) : list filter :=
  (if Create.str_truthy app_class
   then [("tag:ApplicationClass", [Create.default_to app_class ""])] else [])
  ++ (if Create.str_truthy state
      then [("instance-state-name", [Create.default_to state ""])] else [])
  ++ (if Create.str_truthy profile_name
      then [("tag:Profile", [Create.default_to profile_name ""])] else [])
  ++ (if all_instances then [] else [("tag:CreatedBy", ["spotman"])]).

(** One run of the body of [list_instances]; [describe] is
    [describe_instances(Filters=...)] with its reservations. *)
Definition list_instances_body
    (describe : list filter -> result (list (list ec2_instance)))
    (app_class state profile_name : option string) (all_instances : bool)
    : result (list instance_info) :=
  match describe (list_filters app_class state profile_name all_instances) with
  | Return reservations =>
      Return (sort_desc i_LaunchTime Z.compare (map info_of (concat reservations)))
  | Raise (ClientError _) => Return []
  | Raise e => Raise e
  end.

(** [@retry_on_aws_error(max_retries=2, delay=1.0)] around it. *)
Definition list_instances
    (describe : nat -> list filter -> result (list (list ec2_instance)))
    (app_class state profile_name : option string) (all_instances : bool)
    : result (list instance_info) * unit * list (Retry.event (list filter)) :=
  Retry.retry_on_aws_error
    (fun k (s : unit) =>
       (list_instances_body (describe k) app_class state profile_name all_instances,
        s, [list_filters app_class state profile_name all_instances]))
    2 (QArith_base.inject_Z 1) tt.

(** The tags of [create_instance]: the profile's [tags] (values after
    [str()]), then the keys it sets. *)
Definition create_tags (profile_tags : dict string) (instance_name : string)
    (app_class : option string) (created_at profile_name : string)
    (spot_instance hibernation_enabled : bool) : dict string :=
  let t := dict_set "Name" instance_name profile_tags in
  let t := if Create.str_truthy app_class
           then dict_set "ApplicationClass" (Create.default_to app_class "") t else t in
  let t := dict_set "CreatedBy" "spotman" t in
  let t := dict_set "CreatedAt" created_at t in
  let t := dict_set "Profile" profile_name t in
  let t := if spot_instance then dict_set "InstanceType" "spot" t else t in
  if hibernation_enabled then dict_set "HibernationEnabled" "true" t else t.

End Listing.

(** ** format_instances_table: the column layout *)
Module Table.
Import Py Listing.

Definition headers : list string :=
  ["Name"; "Instance ID"; "Type"; "State"; "Public IP"; "Launch Time"].

(** One turn of the width loop. *)
Definition widen (w : list nat) (i : instance_info) : list nat :=
  match w with
  | [w0; w1; w2; w3; w4; w5] =>
      [Nat.max w0 (String.length (i_Name i));
       Nat.max w1 (String.length (i_InstanceId i));
       Nat.max w2 (String.length (i_InstanceType i));
       Nat.max w3 (String.length (i_State i));
       Nat.max w4 (String.length (i_PublicIpAddress i));
       Nat.max w5 19]
  | _ => w
  end.

Definition widths (instances : list instance_info) : list nat :=
  fold_left widen instances (map String.length headers).

Definition pad_cells (cells : list string) (w : list nat) : list string :=
  map (fun cw => ljust (fst cw) (snd cw)) (combine cells w).

Definition header_line (instances : list instance_info) : string :=
  join " | " (pad_cells headers (widths instances)).

(** A data row; [strftime] renders [LaunchTime] (a datetime, always truthy). *)
Definition row_cells (strftime : Z -> string) (i : instance_info) : list string :=
  [i_Name i; i_InstanceId i; i_InstanceType i; i_State i; i_PublicIpAddress i;
   strftime (i_LaunchTime i)].

Definition row_line (strftime : Z -> string) (instances : list instance_info)
    (i : instance_info) : string :=
  join " | " (pad_cells (row_cells strftime i) (widths instances)).

End Table.

(** ** _get_latest_ami: choosing the image *)
Module Images.

Record image := {
  ImageId : string;
  Name : string;
  CreationDate : string }.

(** [sorted(response['Images'], key=CreationDate, reverse=True)[0]], or the
    [ValueError] for an empty list. *)
Definition latest_image (images : list image) : result image :=
  match Py.sort_desc CreationDate String.compare images with
  | [] => Raise OtherException
  | i :: _ => Return i
  end.

(** One run of [_get_latest_ami] (a [ClientError] is re-raised). *)
Definition get_latest_ami_body (describe_images : list Ami.filter -> result (list image))
    (os_type : string) (ami_name_pattern : option string) : result string :=
  match Ami.latest_ami_filters os_type ami_name_pattern with
  | Raise e => Raise e
  | Return f =>
      match describe_images f with
      | Raise e => Raise e
      | Return imgs =>
          match latest_image imgs with
          | Return i => Return (ImageId i)
          | Raise e => Raise e
          end
      end
  end.

End Images.

(** ** get_spot_capacity_scores *)
Module Capacity.
Import Py.

(** One item of [SpotPlacementScores]; [None] is an absent key. *)
Record score_item := {
  AvailabilityZoneId : option string;
  Region : option string;
  Score : option Z }.

Record placement_request := {
  InstanceTypes : list string;
  TargetCapacity : Z;
  SingleAvailabilityZone : bool;
  RegionNames : list string }.

(** [item['Score']]: a missing key raises [KeyError]. *)
Definition score_of (item : score_item) : result Z :=
  match Score item with Some s => Return s | None => Raise OtherException end.

(** The loop over the items; [describe_az] is [describe_availability_zones]
    for one zone id, giving the [ZoneName]s.  The inner bare [except]
    catches everything and records the score under the zone id. *)
Fixpoint scores_loop (describe_az : string -> result (list string)) (single_az : bool)
    (items : list score_item) (scores : dict Z) : result (dict Z) :=
  match items with
  | [] => Return scores
  | item :: rest =>
      if single_az then
        match AvailabilityZoneId item with
        | Some az_id =>
            let inner :=
              match describe_az az_id with
              | Return (az_name :: _) =>
                  match score_of item with
                  | Return s => Return (dict_set az_name s scores)
                  | Raise e => Raise e
                  end
              | Return [] => Return scores
              | Raise e => Raise e
              end in
            match inner with
            | Return sc => scores_loop describe_az single_az rest sc
            | Raise _ =>
                match score_of item with
                | Return s => scores_loop describe_az single_az rest (dict_set az_id s scores)
                | Raise e => Raise e
                end
            end
        | None => scores_loop describe_az single_az rest scores
        end
      else
        match Region item with
        | Some r =>
            match score_of item with
            | Return s => scores_loop describe_az single_az rest (dict_set r s scores)
            | Raise e => Raise e
            end
        | None => scores_loop describe_az single_az rest scores
        end
  end.

(** [get_spot_capacity_scores]; [placement] is [get_spot_placement_scores]
    with its [SpotPlacementScores]. *)
Definition get_spot_capacity_scores
    (placement : placement_request -> result (list score_item))
    (describe_az : string -> result (list string)) (region : string)
    (instance_types : list string) (target_capacity : Z) (single_az : bool)
    : result (dict Z) :=
  let params := {| InstanceTypes := firstn 10 instance_types;
                   TargetCapacity := target_capacity;
                   SingleAvailabilityZone := single_az;
                   RegionNames := [region] |} in
  match placement params with
  | Raise e => if is_Exception e then Return [] else Raise e
  | Return items =>
      match scores_loop describe_az single_az items [] with
      | Return sc => Return sc
      | Raise e => if is_Exception e then Return [] else Raise e
      end
  end.

End Capacity.

(** ** stop_instance, start_instance, hibernate_instance,
    resume_hibernated_instance *)
Module Ops.

(** The fields of [describe_instances(InstanceIds=[id])] these read;
    [HibernateConfigured] is [HibernateOptions.Configured], [None] when
    absent. *)
Record detail := {
  State : string;
  HibernateConfigured : option bool }.

Inductive call :=
| ListByName (region : string)
| DescribeById (instance_id : string)
| StopInstances (instance_id : string) (hibernate : bool)
| StartInstances (instance_id : string).

(** The remote side of one attempt; [describe_by_id] answers [None] when
    the response has no reservation. *)
Record oenv := {
  resolver : Resolve.env;
  describe_by_id : string -> result (option detail);
  stop : string -> bool -> result unit;
  start : string -> result unit }.

(** The resolution at the head of each method (outside its [try]), then the
    body [k] on the resolved id; a falsy id returns [False]. *)
Definition with_instance (E : oenv) (m : Resolve.manager) (identifier : string)
    (k : string -> list call -> result bool * list call)
    : result bool * Resolve.manager * list call :=
  let o := Resolve.resolve_instance_identifier (resolver E) m identifier false in
  let calls0 := map ListByName (Resolve.log o) in
  match Resolve.res o with
  | Raise e => (Raise e, Resolve.mgr o, calls0)
  | Return id_opt =>
      if negb (Create.str_truthy id_opt) then (Return false, Resolve.mgr o, calls0)
      else let '(r, calls) := k (Create.default_to id_opt "") calls0 in
           (r, Resolve.mgr o, calls)
  end.

(** A remote call under [except ClientError: return False]. *)
Definition guarded (r : result unit) (ok : bool) : result bool :=
  match r with
  | Return _ => Return ok
  | Raise (ClientError _) => Return false
  | Raise e => Raise e
  end.

Definition stop_body (E : oenv) (instance_id : string) (calls : list call) :=
  (guarded (stop E instance_id false) true, calls ++ [StopInstances instance_id false]).

Definition start_body (E : oenv) (instance_id : string) (calls : list call) :=
  (guarded (start E instance_id) true, calls ++ [StartInstances instance_id]).

(** [response['Reservations'][0]['Instances'][0]] under [except ClientError]. *)
Definition describe_then (E : oenv) (instance_id : string) (calls : list call)
    (k : detail -> list call -> result bool * list call) : result bool * list call :=
  let calls1 := calls ++ [DescribeById instance_id] in
  match describe_by_id E instance_id with
  | Raise (ClientError _) => (Return false, calls1)
  | Raise e => (Raise e, calls1)
  | Return None => (Raise OtherException, calls1)
  | Return (Some d) => k d calls1
  end.

Definition hibernate_body (E : oenv) (instance_id : string) (calls : list call) :=
  describe_then E instance_id calls (fun d calls1 =>
    if negb (match HibernateConfigured d with Some b => b | None => false end)
    then (Return false, calls1)
    else if negb (String.eqb (State d) "running") then (Return false, calls1)
    else (guarded (stop E instance_id true) true,
          calls1 ++ [StopInstances instance_id true])).

Definition resume_body (E : oenv) (instance_id : string) (calls : list call) :=
  describe_then E instance_id calls (fun d calls1 =>
    if String.eqb (State d) "running" then (Return true, calls1)
    else if negb (String.eqb (State d) "stopped") then (Return false, calls1)
    else (guarded (start E instance_id) true, calls1 ++ [StartInstances instance_id])).

(** Each method under [@retry_on_aws_error(max_retries=3, delay=2.0)];
    [Ek k] is the remote side during attempt [k]. *)
Definition decorated (Ek : nat -> oenv)
    (body : oenv -> string -> list call -> result bool * list call)
    (m : Resolve.manager) (identifier : string)
    : result bool * Resolve.manager * list (Retry.event call) :=
  Retry.retry_on_aws_error
    (fun k s => with_instance (Ek k) s identifier (body (Ek k)))
    3 (QArith_base.inject_Z 2) m.

Definition stop_instance (Ek : nat -> oenv) := decorated Ek stop_body.
Definition start_instance (Ek : nat -> oenv) := decorated Ek start_body.
Definition hibernate_instance (Ek : nat -> oenv) := decorated Ek hibernate_body.
Definition resume_hibernated_instance (Ek : nat -> oenv) := decorated Ek resume_body.

Definition hibernation_ready (d : detail) : bool :=
  match HibernateConfigured d with Some b => b | None => false end
  && String.eqb (State d) "running".

End Ops.

(** ** User data of create_instance *)
Module UserData.
Import Py.

(** A profile's [user_data] value: a string, or another YAML value with its
    truthiness. *)
Inductive yval :=
| YStr (s : string)
| YOther (truthy : bool).

Definition y_truthy (v : yval) : bool :=
  match v with YStr s => negb (String.eqb s "") | YOther b => b end.

(** [_get_user_data_script]; [None] is an absent key. *)
Definition get_user_data_script (user_data : option yval) : option string :=
  match user_data with
  | None => None
  | Some v =>
      if negb (y_truthy v) then None
      else match v with YStr s => Some s | YOther _ => None end
  end.

Definition update_script (os_type : string) : string :=
  if String.eqb os_type "ubuntu" then
    ("#!/bin/bash" ++ nl_str ++ "apt-get update && apt-get upgrade -y" ++ nl_str)%string
  else if String.eqb os_type "amazon-linux" then
    ("#!/bin/bash" ++ nl_str ++ "yum update -y" ++ nl_str)%string
  else if String.eqb os_type "centos" then
    ("#!/bin/bash" ++ nl_str ++ "yum update -y" ++ nl_str)%string
  else EmptyString.

(** [final_user_data], before base64 encoding; [UserData] is sent when it
    is non-empty. *)
Definition final_user_data (update_os : bool) (os_type : string)
    (user_data : option string) : string :=
  let f := if update_os then update_script os_type else EmptyString in
  if Create.str_truthy user_data then
    if String.eqb f "" then Create.default_to user_data ""
    else (f ++ nl_str ++ Create.default_to user_data "")%string
  else f.

End UserData.


(* ================================================================== *)
(** * Proofs *)
(* ================================================================== *)

(** ** get_spot_prices *)
Module SpotPricesProofs.
Import SpotPrices.

Lemma key_eqb_spec (a b : key) : key_eqb a b = true <-> a = b.
Proof.
  destruct a as [a1 a2], b as [b1 b2]; unfold key_eqb; simpl.
  rewrite andb_true_iff, !String.eqb_eq. split.
  - intros [-> ->]; reflexivity.
  - intros H; inversion H; auto.
Qed.

Lemma key_eqb_refl (a : key) : key_eqb a a = true.
Proof. apply key_eqb_spec; reflexivity. Qed.

Lemma key_compare_antisym (a b : key) :
  key_compare a b = CompOpp (key_compare b a).
Proof.
  unfold key_compare. rewrite (String.compare_antisym (fst a) (fst b)).
  destruct (String.compare (fst b) (fst a)); simpl; auto.
  apply String.compare_antisym.
Qed.

Lemma key_compare_eq (a b : key) : key_compare a b = Eq -> a = b.
Proof.
  destruct a as [a1 a2], b as [b1 b2]; unfold key_compare; simpl.
  destruct (String.compare a1 b1) eqn:E1; try discriminate.
  intros E2. apply String.compare_eq_iff in E1, E2. subst; reflexivity.
Qed.

Lemma filter_Permutation {A} (P : A -> bool) (l l' : list A) :
  Permutation l l' -> Permutation (filter P l) (filter P l').
Proof.
  induction 1; simpl.
  - constructor.
  - destruct (P x); auto.
  - destruct (P x), (P y); auto using Permutation_refl; constructor.
  - eauto using Permutation_trans.
Qed.

Lemma insert_by_key_perm (e : price_entry) (l : list price_entry) :
  Permutation (insert_by_key e l) (e :: l).
Proof.
  induction l as [|h t IH]; simpl; auto.
  destruct (key_compare (entry_key e) (entry_key h)); auto.
  eapply Permutation_trans; [apply perm_skip, IH | apply perm_swap].
Qed.

Lemma sort_by_key_perm (l : list price_entry) : Permutation (sort_by_key l) l.
Proof.
  induction l as [|h t IH]; simpl; auto.
  eapply Permutation_trans; [apply insert_by_key_perm | auto].
Qed.

Lemma insert_by_key_hd (h e : price_entry) (l : list price_entry) :
  HdRel key_lt h l -> key_lt h e -> HdRel key_lt h (insert_by_key e l).
Proof.
  destruct l as [|x t]; simpl; intros H1 H2.
  - constructor; auto.
  - destruct (key_compare (entry_key e) (entry_key x)); constructor; auto;
      inversion H1; auto.
Qed.

Lemma insert_by_key_sorted (e : price_entry) (l : list price_entry) :
  Sorted key_lt l -> ~ In (entry_key e) (map entry_key l) ->
  Sorted key_lt (insert_by_key e l).
Proof.
  induction l as [|h t IH]; simpl; intros Hs Hn.
  - repeat constructor.
  - inversion Hs as [|? ? Ht Hh]; subst.
    destruct (key_compare (entry_key e) (entry_key h)) eqn:C.
    + apply key_compare_eq in C. exfalso; apply Hn; left; auto.
    + constructor; auto.
    + constructor.
      * apply IH; auto.
      * apply insert_by_key_hd; auto. unfold key_lt.
        rewrite key_compare_antisym, C. reflexivity.
Qed.

Lemma sort_by_key_sorted (l : list price_entry) :
  NoDup (map entry_key l) -> Sorted key_lt (sort_by_key l).
Proof.
  induction l as [|h t IH]; simpl; intros Hnd.
  - constructor.
  - inversion Hnd as [|? ? Hn Hnd']; subst.
    apply insert_by_key_sorted; auto.
    intros Hin; apply Hn.
    eapply Permutation_in; [|exact Hin].
    apply Permutation_map, sort_by_key_perm.
Qed.

Lemma latest_prices_loop_nodup (acc : list price_entry) items :
  NoDup (map entry_key acc) -> NoDup (map entry_key (latest_prices_loop acc items)).
Proof.
  revert acc; induction items as [|it rest IH]; simpl; intros acc Hnd; auto.
  destruct (existsb (fun e => key_eqb (entry_key e) (item_key it)) acc) eqn:E.
  - apply IH; auto.
  - apply IH. rewrite map_app; simpl.
    eapply Permutation_NoDup; [apply Permutation_cons_append|].
    constructor; auto.
    intros Hin. apply in_map_iff in Hin as [e [He Hin]].
    assert (existsb (fun e => key_eqb (entry_key e) (item_key it)) acc = true)
      as E'.
    { apply existsb_exists. exists e. split; auto. apply key_eqb_spec; auto. }
    congruence.
Qed.

Lemma entry_key_of_item (it : spot_history_item) :
  entry_key (entry_of_item it) = item_key it.
Proof. reflexivity. Qed.

(** The dict loop keeps, for each key, what [acc] already had, or else the
    first row of the remaining input with that key. *)
Lemma latest_prices_loop_filter (k : key) (acc : list price_entry) items :
  filter (fun e => key_eqb (entry_key e) k) (latest_prices_loop acc items) =
  filter (fun e => key_eqb (entry_key e) k) acc ++
  (if existsb (fun e => key_eqb (entry_key e) k) acc then []
   else match first_row_for k items with
        | Some it => [entry_of_item it]
        | None => []
        end).
Proof.
  revert acc; induction items as [|it rest IH]; intros acc; simpl.
  - destruct (existsb _ acc); rewrite List.app_nil_r; reflexivity.
  - unfold first_row_for in *; simpl.
    destruct (key_eqb (item_key it) k) eqn:Ek.
    + apply key_eqb_spec in Ek. subst k.
      destruct (existsb (fun e => key_eqb (entry_key e) (item_key it)) acc) eqn:E.
      * rewrite IH, E. reflexivity.
      * rewrite IH, filter_app, existsb_app, E. cbn [filter existsb].
        rewrite entry_key_of_item, key_eqb_refl. simpl.
        rewrite List.app_nil_r. reflexivity.
    + destruct (existsb (fun e => key_eqb (entry_key e) (item_key it)) acc) eqn:E.
      * apply IH.
      * rewrite IH, filter_app, existsb_app. cbn [filter existsb].
        rewrite entry_key_of_item, Ek, orb_false_r. simpl.
        rewrite List.app_nil_r. reflexivity.
Qed.

Lemma find_split {A} (f : A -> bool) (l : list A) (x : A) :
  find f l = Some x ->
  exists pre post, l = pre ++ x :: post /\ f x = true /\
    forall y, In y pre -> f y = false.
Proof.
  induction l as [|a t IH]; simpl; [discriminate|].
  destruct (f a) eqn:Fa.
  - intros H; inversion H; subst. exists [], t.
    split; [reflexivity|split; [exact Fa|intros y []]].
  - intros H. destruct (IH H) as [pre [post [-> [Fx Hpre]]]].
    exists (a :: pre), post. split; [reflexivity|]. split; auto.
    intros y [<-|Hy]; auto.
Qed.

Lemma filter_length_le_1 {A} (l l' : list A) :
  Permutation l l' -> length l' <= 1 -> l = l'.
Proof.
  intros Hp Hlen. destruct l' as [|a [|b t]].
  - apply Permutation_nil, Permutation_sym; auto.
  - apply Permutation_length_1_inv, Permutation_sym; auto.
  - simpl in Hlen; lia.
Qed.

(** X: [get_spot_prices] keeps one row per pair, the first one of the
    response, and the output is strictly ascending by (instance_type,
    availability_zone); when the response lists each pair newest first,
    that row has the largest timestamp of its pair (the order the code
    relies on for C1). *)
Theorem get_spot_prices_first_row_sorted (items : list spot_history_item) :
  Sorted key_lt (get_spot_prices items) /\
  (forall k, filter (fun e => key_eqb (entry_key e) k) (get_spot_prices items) =
     match first_row_for k items with
     | Some it => [entry_of_item it]
     | None => []
     end) /\
  (newest_first items -> keeps_max_timestamp items).
Proof.
  assert (Hfilt : forall k,
    filter (fun e => key_eqb (entry_key e) k) (get_spot_prices items) =
    match first_row_for k items with
    | Some it => [entry_of_item it]
    | None => []
    end).
  { intros k. apply filter_length_le_1.
    - pose proof (latest_prices_loop_filter k [] items) as E. simpl in E.
      rewrite <- E. apply filter_Permutation, sort_by_key_perm.
    - destruct (first_row_for k items); simpl; lia. }
  split; [|split; [exact Hfilt|]].
  - apply sort_by_key_sorted, latest_prices_loop_nodup. constructor.
  - intros Hnf it Hin.
    destruct (first_row_for (item_key it) items) as [x|] eqn:Ef.
    + exists (entry_of_item x). rewrite Hfilt, Ef. split; [reflexivity|].
      apply find_split in Ef as [pre [post [Hl [Fx Hpre]]]].
      apply key_eqb_spec in Fx.
      intros it' Hin' Hk'. simpl.
      rewrite Hl in Hin'. apply in_app_or in Hin' as [Hp|[<-|Hp]].
      * apply Hpre in Hp. rewrite Hk', key_eqb_refl in Hp. discriminate.
      * lia.
      * apply (Hnf pre x post it' Hl Hp). congruence.
    + exfalso. unfold first_row_for in Ef.
      apply (find_none _ _ Ef) in Hin. rewrite key_eqb_refl in Hin.
      discriminate.
Qed.

Example get_spot_prices_ex1 :
  get_spot_prices [row_old; row_other; row_new] =
  [entry_of_item row_other; entry_of_item row_old].
Proof. reflexivity. Qed.

(** C1 counterexample: with the older row of a pair listed first, the
    output keeps that older row, not the one with the largest timestamp. *)
Lemma get_spot_prices_oldest_first_cex :
  ~ keeps_max_timestamp [row_old; row_new].
Proof.
  intros H. destruct (H row_old (or_introl eq_refl)) as [e [Hf Hmax]].
  vm_compute in Hf. injection Hf as <-.
  specialize (Hmax row_new (or_intror (or_introl eq_refl)) eq_refl).
  vm_compute in Hmax. apply Hmax. reflexivity.
Qed.

(** Witness: a response listing the pair newest first. *)
Lemma get_spot_prices_first_row_sorted_witness :
  newest_first [row_new; row_old] /\ keeps_max_timestamp [row_new; row_old].
Proof.
  assert (Hn : newest_first [row_new; row_old]).
  { intros pre it post it' Hl Hin Hk.
    destruct pre as [|x [|y pre]]; simpl in Hl; inversion Hl; subst.
    - destruct Hin as [<-|[]]. simpl. lia.
    - destruct Hin.
    - destruct pre; discriminate. }
  split; [exact Hn|].
  apply (get_spot_prices_first_row_sorted [row_new; row_old]). exact Hn.
Defined.

End SpotPricesProofs.

(** ** Instance resolution *)
Module ResolveProofs.
Import Resolve.

Lemma add_log_nil (o : outcome) : add_log [] o = o.
Proof. destruct o; reflexivity. Qed.

Lemma add_log_app (l1 l2 : list string) (o : outcome) :
  add_log l1 (add_log l2 o) = add_log (l1 ++ l2) o.
Proof. destruct o; unfold add_log; simpl. rewrite app_assoc. reflexivity. Qed.

(** The probe of another region does not depend on the manager. *)
Lemma probe_other_indep (E : env) (m m' : manager) identifier incl r :
  probe_of E m identifier incl (Other r) = probe_of E m' identifier incl (Other r).
Proof. reflexivity. Qed.

Lemma search_cons_passed (E : env) (m : manager) identifier incl r rs :
  fst (probe_of E m identifier incl (Other r)) = Passed ->
  search_other_regions E m identifier incl (r :: rs) =
  add_log (snd (probe_of E m identifier incl (Other r)))
    (search_other_regions E m identifier incl rs).
Proof.
  unfold probe_of; simpl.
  destruct (manager_init E r) as [u|e].
  - destruct (resolve_instance_in_region E r identifier incl) as [l|e].
    + destruct l as [|i [|j l]]; simpl; intros H; try discriminate; reflexivity.
    + destruct (is_Exception e); simpl; intros H; try discriminate; reflexivity.
  - destruct (is_Exception e); simpl; intros H; try discriminate.
    rewrite add_log_nil. reflexivity.
Qed.

Lemma search_passed_prefix (E : env) (m : manager) identifier incl pre rest :
  Forall (fun r => fst (probe_of E m identifier incl (Other r)) = Passed) pre ->
  search_other_regions E m identifier incl (pre ++ rest) =
  add_log (flat_map (fun r => snd (probe_of E m identifier incl (Other r))) pre)
    (search_other_regions E m identifier incl rest).
Proof.
  induction 1 as [|r pre Hr Hpre IH].
  - simpl. rewrite add_log_nil; reflexivity.
  - change ((r :: pre) ++ rest) with (r :: (pre ++ rest)).
    rewrite search_cons_passed by exact Hr. cbn [flat_map].
    rewrite IH, add_log_app. reflexivity.
Qed.

Lemma search_cons_ambiguous (E : env) (m : manager) identifier incl r rs insts :
  fst (probe_of E m identifier incl (Other r)) = Hit insts -> 2 <= length insts ->
  search_other_regions E m identifier incl (r :: rs) =
  finish (Return None) m (snd (probe_of E m identifier incl (Other r)))
    (map (report r) insts).
Proof.
  unfold probe_of; simpl.
  destruct (manager_init E r) as [u|e].
  - destruct (resolve_instance_in_region E r identifier incl) as [l|e].
    + destruct l as [|i [|j l]]; simpl; intros H Hlen; try discriminate.
      * injection H as <-. simpl in Hlen. lia.
      * injection H as <-. reflexivity.
    + destruct (is_Exception e); simpl; intros H; discriminate.
  - destruct (is_Exception e); simpl; intros H; discriminate.
Qed.

(** C2: when the first region (home, then the other configured regions in
    directory order) whose name-filtered listing yields instances yields
    two or more, the resolver returns no resolution, prints every candidate
    with its id, state and region, leaves the manager as it was, and sends
    no listing to any region after that one. *)
Theorem resolve_ambiguous_stops (E : env) (m : manager) (identifier : string)
    (incl : bool) (pre : list candidate) (c : candidate)
    (post : list candidate) (insts : list instance) :
  is_instance_id identifier = false ->
  candidates m = pre ++ c :: post ->
  Forall (fun q => fst (probe_of E m identifier incl q) = Passed) pre ->
  fst (probe_of E m identifier incl c) = Hit insts ->
  2 <= length insts ->
  let o := resolve_instance_identifier E m identifier incl in
  res o = Return None /\ mgr o = m /\
  log o = flat_map (fun q => snd (probe_of E m identifier incl q)) (pre ++ [c]) /\
  reported o = map (report (candidate_region m c)) insts.
Proof.
  intros Hid Hc Hpre Hhit Hlen o. subst o.
  unfold resolve_instance_identifier. rewrite Hid.
  unfold candidates in Hc. destruct pre as [|c0 pre'].
  - simpl in Hc. injection Hc as <- _.
    simpl in Hhit |- *.
    destruct (resolve_instance_in_region E (ec2_client_region m) identifier incl)
      as [[|i [|j l]]|e]; simpl in Hhit; try discriminate.
    + injection Hhit as <-. simpl in Hlen. lia.
    + injection Hhit as <-. repeat split.
  - simpl in Hc. injection Hc as <- Hc.
    inversion Hpre as [|? ? Hhome Hpre']; subst.
    simpl in Hhome.
    destruct (resolve_instance_in_region E (ec2_client_region m) identifier incl)
      as [[|i [|j l]]|e] eqn:Ehome; simpl in Hhome; try discriminate.
    apply map_eq_app in Hc as [pr [rest [Hsplit [Hpr Hrest]]]].
    apply map_eq_cons in Hrest as [r [po [-> [<- <-]]]].
    subst pre'. rewrite Hsplit.
    apply Forall_map in Hpre'.
    rewrite search_passed_prefix by exact Hpre'.
    rewrite (search_cons_ambiguous E m identifier incl r po insts Hhit Hlen).
    unfold add_log, finish; simpl.
    repeat split.
    rewrite Ehome. cbn [snd app]. f_equal.
    rewrite List.flat_map_app, !flat_map_concat_map, map_map. simpl.
    rewrite List.app_nil_r. reflexivity.
Qed.

(** C2 witness. *)
Lemma resolve_ambiguous_stops_witness :
  let o := resolve_instance_identifier ex_env ex_mgr "web" false in
  res o = Return None /\ mgr o = ex_mgr /\
  log o = flat_map (fun q => snd (probe_of ex_env ex_mgr "web" false q))
            ([Home] ++ [Other "us-west-2"]) /\
  reported o = map (report (candidate_region ex_mgr (Other "us-west-2"))) [web1; web2].
Proof.
  apply (resolve_ambiguous_stops ex_env ex_mgr "web" false [Home]
           (Other "us-west-2") [Other "eu-west-1"] [web1; web2]).
  - reflexivity.
  - reflexivity.
  - repeat constructor.
  - reflexivity.
  - simpl; lia.
Defined.

Example resolve_ambiguous_ex :
  log (resolve_instance_identifier ex_env ex_mgr "web" false) =
  ["us-east-1"; "us-west-2"].
Proof. reflexivity. Qed.

(** C3: an identifier that starts with "i-" and has at least ten characters
    is returned unchanged, with the manager untouched and no listing sent. *)
Theorem resolve_instance_id_fast_path (E : env) (m : manager)
    (identifier : string) (incl : bool) :
  String.prefix "i-" identifier = true ->
  (10 <= String.length identifier)%nat ->
  resolve_instance_identifier E m identifier incl =
  finish (Return (Some identifier)) m [] [].
Proof.
  intros Hp Hlen. unfold resolve_instance_identifier, is_instance_id.
  rewrite Hp. apply Nat.leb_le in Hlen. rewrite Hlen. reflexivity.
Qed.

(** C3 witness. *)
Lemma resolve_instance_id_fast_path_witness :
  resolve_instance_identifier ex_env ex_mgr "i-0bbbbbbbbbbbbbbb3" false =
  finish (Return (Some "i-0bbbbbbbbbbbbbbb3")) ex_mgr [] [].
Proof.
  apply resolve_instance_id_fast_path; [reflexivity | simpl; lia].
Defined.

Lemma search_mgr_change (E : env) (m0 : manager) identifier incl regions :
  forall m,
  mgr (search_other_regions E m identifier incl regions) <> m ->
  exists r i, In r regions /\
    fst (probe_of E m0 identifier incl (Other r)) = Hit [i].
Proof.
  induction regions as [|r rs IH]; intros m Hm; simpl in Hm.
  - exfalso; apply Hm; reflexivity.
  - destruct (manager_init E r) as [u|e] eqn:Em.
    + destruct (resolve_instance_in_region E r identifier incl)
        as [[|i [|j l]]|e] eqn:Er.
      * destruct (IH m Hm) as [r' [i' [Hin Hp]]].
        exists r', i'. split; [right; exact Hin | exact Hp].
      * exists r, i. split; [left; reflexivity|].
        unfold probe_of. rewrite Em, Er. reflexivity.
      * exfalso; apply Hm; reflexivity.
      * destruct (is_Exception e).
        -- destruct (IH m Hm) as [r' [i' [Hin Hp]]].
           exists r', i'. split; [right; exact Hin | exact Hp].
        -- exfalso; apply Hm; reflexivity.
    + destruct (is_Exception e).
      * destruct (IH m Hm) as [r' [i' [Hin Hp]]].
        exists r', i'. split; [right; exact Hin | exact Hp].
      * exfalso; apply Hm; reflexivity.
Qed.

(** C4: with no instance listed in the home region nor in any other
    configured region, the resolver returns no resolution and the manager
    (region and clients) is unchanged; and whenever the manager does change,
    some other configured region listed exactly one instance. *)
Theorem resolve_not_found_frame (E : env) (m : manager) (identifier : string)
    (incl : bool) :
  is_instance_id identifier = false ->
  (Forall (fun q => fst (probe_of E m identifier incl q) = Passed) (candidates m) ->
   res (resolve_instance_identifier E m identifier incl) = Return None /\
   mgr (resolve_instance_identifier E m identifier incl) = m) /\
  (mgr (resolve_instance_identifier E m identifier incl) <> m ->
   exists r i, In r (other_regions m) /\
     fst (probe_of E m identifier incl (Other r)) = Hit [i]).
Proof.
  intros Hid. unfold resolve_instance_identifier. rewrite Hid. split.
  - intros Hall. unfold candidates in Hall.
    inversion Hall as [|? ? Hhome Hothers]; subst.
    simpl in Hhome.
    destruct (resolve_instance_in_region E (ec2_client_region m) identifier incl)
      as [[|i [|j l]]|e]; simpl in Hhome; try discriminate.
    apply Forall_map in Hothers.
    rewrite <- (List.app_nil_r (other_regions m)).
    rewrite search_passed_prefix by exact Hothers.
    split; reflexivity.
  - destruct (resolve_instance_in_region E (ec2_client_region m) identifier incl)
      as [[|i [|j l]]|e]; simpl; intros Hm; try (exfalso; apply Hm; reflexivity).
    apply (search_mgr_change E m identifier incl (other_regions m) m Hm).
Qed.

(** C4 witness: "db" is listed nowhere. *)
Lemma resolve_not_found_frame_witness :
  res (resolve_instance_identifier ex_env ex_mgr "db" false) = Return None /\
  mgr (resolve_instance_identifier ex_env ex_mgr "db" false) = ex_mgr.
Proof.
  apply (proj1 (resolve_not_found_frame ex_env ex_mgr "db" false eq_refl)).
  repeat constructor.
Defined.

End ResolveProofs.

(** ** Retry policy *)
Module RetryProofs.
Import Retry.

Example classify_examples :
  classify "Throttling" = Retryable /\ classify "InvalidAMIID.NotFound" = Permanent /\
  classify "Unknown" = Unknown.
Proof. repeat split. Qed.

(** Four attempts against a persistently throttled call: sleeps of
    delay, 2 delay and 4 delay, then the error propagates. *)
Example retry_throttled_trace :
  retry_on_aws_error (always_fails "Throttling") 3 (QArith_base.inject_Z 2) tt =
  (Raise (ClientError "Throttling"), tt,
   [Attempt 0; Call tt; Sleep (backoff (QArith_base.inject_Z 2) 0);
    Attempt 1; Call tt; Sleep (backoff (QArith_base.inject_Z 2) 1);
    Attempt 2; Call tt; Sleep (backoff (QArith_base.inject_Z 2) 2);
    Attempt 3; Call tt]).
Proof. reflexivity. Qed.

(** C8: on attempt [k] (counted from 0; the wrapper starts at attempt 0
    with all [max_retries + 1] attempts), a [ClientError] classified
    Permanent or Unknown propagates with no sleep and no further attempt; a
    Retryable one before the last attempt is followed by a sleep of
    [delay * 2^k] and attempt [k + 1]; and any exception raised on the last
    attempt propagates. *)
Theorem retry_on_aws_error_policy {St A C : Type}
    (func : nat -> St -> result A * St * list C) (max_retries : nat)
    (delay : Q) (k : nat) (s s' : St) (e : exn) (calls : list C) :
  k <= max_retries ->
  func k s = (Raise e, s', calls) ->
  let here := Attempt k :: map Call calls in
  let run := retry_loop func max_retries delay k (S max_retries - k) s in
  (forall code, e = ClientError code -> classify code <> Retryable ->
     run = (Raise e, s', here)) /\
  (forall code, e = ClientError code -> classify code = Retryable ->
     k < max_retries ->
     run = (let '(r2, s2, t2) :=
              retry_loop func max_retries delay (S k) (S max_retries - S k) s' in
            (r2, s2, here ++ Sleep (backoff delay k) :: t2))) /\
  (k = max_retries -> run = (Raise e, s', here)).
Proof.
  intros Hk Hf here run. subst here run.
  replace (S max_retries - k) with (S (max_retries - k)) by lia.
  replace (S max_retries - S k) with (max_retries - k) by lia.
  simpl. rewrite Hf. split; [|split].
  - intros code -> Hc. unfold handle_aws_error.
    destruct (classify code); [contradiction| |];
      destruct (Nat.eqb k max_retries); reflexivity.
  - intros code -> Hc Hlt. unfold handle_aws_error. rewrite Hc.
    replace (Nat.eqb k max_retries) with false
      by (symmetry; apply Nat.eqb_neq; lia).
    reflexivity.
  - intros ->. rewrite Nat.eqb_refl.
    destruct e; reflexivity.
Qed.

(** C8 witness: a throttled first attempt out of four. *)
Lemma retry_on_aws_error_policy_witness :
  retry_loop (always_fails "Throttling") 3 (QArith_base.inject_Z 2) 0 (S 3 - 0) tt =
  (let '(r2, s2, t2) :=
     retry_loop (always_fails "Throttling") 3 (QArith_base.inject_Z 2) 1 (S 3 - 1) tt in
   (r2, s2, (Attempt 0 :: map Call [tt]) ++
            Sleep (backoff (QArith_base.inject_Z 2) 0) :: t2)).
Proof.
  apply (proj1 (proj2 (retry_on_aws_error_policy (always_fails "Throttling") 3
            (QArith_base.inject_Z 2) 0 tt tt (ClientError "Throttling") [tt]
            ltac:(lia) eq_refl)) "Throttling" eq_refl eq_refl ltac:(lia)).
Defined.

End RetryProofs.

(** ** create_instance *)
Module CreateProofs.
Import Create.

Definition override (p : profile) (spot_price : option Q) : profile :=
  match spot_price with Some q => set_spot_price p (PyFloat q) | None => p end.

(** Case analysis on the innermost scrutinee of a hypothesis. *)
Ltac destruct_atom H :=
  match type of H with
  | context [match ?x with _ => _ end] =>
      lazymatch x with
      | context [match _ with _ => _ end] => fail
      | _ => destruct x eqn:?
      end
  end.

(** Every launch request [create_instance] sends is built by
    [build_run_params] from the loaded profile with the call-time price. *)
Lemma create_run_params (E : cenv) pn iname sp dry az prof p :
  load_profile E pn = Return prof ->
  In (RunInstances p) (snd (create_instance E pn iname sp dry az [])) ->
  exists ami it key sub,
    p = build_run_params (override prof sp) ami it key sub az dry.
Proof.
  intros Hprof Hin.
  unfold create_instance, launch_steps, instance_name_exists, try_except, bind,
    remote, local, ret, raise in Hin.
  rewrite Hprof in Hin.
  repeat (cbn in Hin; destruct_atom Hin).
  all: cbn in Hin.
  all: repeat match goal with H : _ \/ _ |- _ => destruct H end.
  all: try discriminate; try contradiction.
  all: match goal with H : RunInstances _ = RunInstances _ |- _ =>
         injection H as <- end; do 4 eexists; reflexivity.
Qed.

(** C5 counterexample: a call-time price of 0 is specified, yet the
    launch request carries no MaxPrice. *)
Lemma create_zero_price_no_max_price_cex :
  spot_price_specified ex_spot_profile (Some (QArith_base.inject_Z 0)) = true /\
  exists p o,
    In (RunInstances p)
       (snd (create_instance (ex_cenv false None) "spot-dev" "web"
               (Some (QArith_base.inject_Z 0)) false None [])) /\
    InstanceMarketOptions p = Some o /\ MaxPrice o = None.
Proof.
  split; [reflexivity|].
  eexists; eexists; split; [vm_compute; right; left; reflexivity|].
  split; reflexivity.
Qed.

(** C5 (amended): for a spot profile, every launch request carries spot
    market options with interruption behaviour "hibernate" / "terminate"
    and request type "persistent" / "one-time" as hibernation is enabled or
    not, and a MaxPrice exactly when the effective price (override, else
    profile value) is truthy in Python, holding that value. *)
Theorem create_spot_market_options (E : cenv) pn iname sp dry az prof p :
  load_profile E pn = Return prof ->
  p_spot_instance prof = true ->
  In (RunInstances p) (snd (create_instance E pn iname sp dry az [])) ->
  InstanceMarketOptions p =
  Some {| MarketType := "spot";
          SpotInstanceType :=
            if p_hibernation_enabled prof then "persistent" else "one-time";
          InstanceInterruptionBehavior :=
            if p_hibernation_enabled prof then "hibernate" else "terminate";
          MaxPrice :=
            if truthy (effective_spot_price prof sp)
            then Some (effective_spot_price prof sp) else None |}.
Proof.
  intros Hprof Hspot Hin.
  destruct (create_run_params E pn iname sp dry az prof p Hprof Hin)
    as [ami [it [key [sub ->]]]].
  destruct sp; unfold build_run_params; simpl; rewrite Hspot; reflexivity.
Qed.

(** C5 witness: the sample spot profile with a call-time price of 0.25. *)
Lemma create_spot_market_options_witness :
  InstanceMarketOptions
    (build_run_params (set_spot_price ex_spot_profile
                         (PyFloat (QArith_base.Qmake 1 4)))
       "ami-0123456789abcdef0" "c7i.4xlarge" (Some "ops-key") None None false) =
  Some {| MarketType := "spot"; SpotInstanceType := "one-time";
          InstanceInterruptionBehavior := "terminate";
          MaxPrice := Some (PyFloat (QArith_base.Qmake 1 4)) |}.
Proof.
  apply (create_spot_market_options (ex_cenv false None) "spot-dev" "web"
           (Some (QArith_base.Qmake 1 4)) false None ex_spot_profile).
  - reflexivity.
  - reflexivity.
  - vm_compute. right. left. reflexivity.
Defined.

(** C6 counterexample: "web" is running in the home region, but the
    duplicate-name listing is throttled; the check reports no duplicate and
    the instance is launched. *)
Lemma create_duplicate_listing_throttled_cex :
  existsb (matches_name "web")
    (concat (home_reservations (ex_cenv true (Some (ClientError "Throttling"))))) = true /\
  fst (create_instance (ex_cenv true (Some (ClientError "Throttling")))
         "spot-dev" "web" None false None []) = Return (Some "i-0f0f0f0f0f0f0f0f2") /\
  existsb is_mutating
    (snd (create_instance (ex_cenv true (Some (ClientError "Throttling")))
            "spot-dev" "web" None false None [])) = true.
Proof. vm_compute. repeat split. Qed.

Lemma matches_name_live (name : string) (d : inst_desc) :
  d_name d = Some name -> In (d_state d) live_states -> matches_name name d = true.
Proof.
  intros Hn Hs. unfold matches_name. rewrite Hn, String.eqb_refl, andb_true_l.
  apply existsb_exists. exists (d_state d). split; auto. apply String.eqb_refl.
Qed.

(** C6 (amended): a requested name carried by a pending, running,
    stopping or stopped instance of the home region makes [create_instance]
    return [None] after the one duplicate-name listing, with no launch or
    other call, unless that listing raises a [ClientError] (C9): when it
    answers, the duplicate is seen; when it raises another [Exception] (a
    connection error, say), [_instance_name_exists] re-raises it and the
    outer [except Exception] returns [None]. *)
Theorem create_duplicate_name_rejected (E : cenv) pn iname sp dry az :
  (forall e, name_check_error E = Some e ->
     is_Exception e = true /\ forall code, e <> ClientError code) ->
  (exists insts d, In insts (home_reservations E) /\ In d insts /\
     d_name d = Some iname /\ In (d_state d) live_states) ->
  create_instance E pn iname sp dry az [] = (Return None, [DescribeInstances]).
Proof.
  intros Hok [insts [d [Hr [Hd [Hn Hs]]]]].
  unfold create_instance, instance_name_exists, describe_instances_named,
    try_except, bind, remote, ret.
  destruct (name_check_error E) as [e|] eqn:Ne.
  - destruct (Hok e eq_refl) as [He Hnc]. simpl.
    destruct e as [code| | |];
      [destruct (Hnc code eq_refl) | reflexivity | reflexivity | discriminate He].
  - assert (Hdup : existsb has_instances
                     (map (filter (matches_name iname)) (home_reservations E)) = true).
    { apply existsb_exists. exists (filter (matches_name iname) insts). split.
      - apply in_map; exact Hr.
      - destruct (filter (matches_name iname) insts) eqn:F; [|reflexivity].
        assert (Hin : In d (filter (matches_name iname) insts))
          by (apply filter_In; split; auto; apply matches_name_live; auto).
        rewrite F in Hin. destruct Hin. }
    simpl. rewrite Hdup. reflexivity.
Qed.

(** C6 witness: "web" is running in the home region; the listing answers,
    or fails to reach the endpoint. *)
Lemma create_duplicate_name_rejected_witness :
  create_instance (ex_cenv true None) "spot-dev" "web" None false None [] =
  (Return None, [DescribeInstances]) /\
  create_instance (ex_cenv true (Some ConnectionError)) "spot-dev" "web" None false None [] =
  (Return None, [DescribeInstances]).
Proof.
  split; apply create_duplicate_name_rejected.
  - intros e H. discriminate H.
  - eexists; eexists; split; [left; reflexivity|].
    split; [left; reflexivity|]. split; [reflexivity|]. simpl; auto.
  - intros e H. injection H as <-. split; [reflexivity | intros code; discriminate].
  - eexists; eexists; split; [left; reflexivity|].
    split; [left; reflexivity|]. split; [reflexivity|]. simpl; auto.
Defined.

(** C9: the duplicate-name check fails open: when its listing raises a
    [ClientError], [_instance_name_exists] answers "no such instance" and
    [create_instance] goes on with the launch steps whatever instances the
    home region holds. *)
Theorem name_check_fails_open (E : cenv) pn iname sp dry az code :
  name_check_error E = Some (ClientError code) ->
  instance_name_exists E iname [] = (Return false, [DescribeInstances]) /\
  create_instance E pn iname sp dry az [] =
  try_except (launch_steps E pn iname sp dry az)
    (fun e => if is_Exception e then ret None else raise e) [DescribeInstances].
Proof.
  intros Herr.
  unfold create_instance, instance_name_exists, describe_instances_named,
    try_except, bind, remote, ret.
  rewrite Herr. split; reflexivity.
Qed.

(** C9 witness: with "web" running and the listing throttled. *)
Lemma name_check_fails_open_witness :
  instance_name_exists (ex_cenv true (Some (ClientError "Throttling"))) "web" [] =
  (Return false, [DescribeInstances]) /\
  create_instance (ex_cenv true (Some (ClientError "Throttling")))
    "spot-dev" "web" None false None [] =
  try_except (launch_steps (ex_cenv true (Some (ClientError "Throttling")))
                "spot-dev" "web" None false None)
    (fun e => if is_Exception e then ret None else raise e) [DescribeInstances].
Proof.
  apply (name_check_fails_open _ "spot-dev" "web" None false None "Throttling").
  reflexivity.
Defined.

End CreateProofs.

(** ** _get_latest_ami *)
Module AmiProofs.
Import Ami.

Example ubuntu_custom_pattern :
  latest_ami_filters "ubuntu" (Some "ubuntu/images/hvm-ssd/ubuntu-noble-24.04-*") =
  Return (image_filters "ubuntu/images/hvm-ssd/ubuntu-noble-24.04-*" "099720109477").
Proof. reflexivity. Qed.

(** C10: for amazon-linux and centos the profile's image name pattern is
    ignored: whatever it is, the filters are the built-in ones of the
    family. *)
Theorem ami_pattern_ignored_outside_ubuntu (ami_name_pattern : option string) :
  latest_ami_filters "amazon-linux" ami_name_pattern = Return amazon_linux_filters /\
  latest_ami_filters "centos" ami_name_pattern = Return centos_filters.
Proof.
  unfold latest_ami_filters, ami_filters. simpl.
  rewrite !andb_false_r. split; reflexivity.
Qed.

End AmiProofs.

(** ** terminate_instance *)
Module TerminateProofs.
Import Terminate.

(** C7 counterexample: the cancel call fails with an unreachable endpoint
    on each of the four attempts; the terminate call is never issued and
    the error propagates. *)
Lemma terminate_cancel_unreachable_cex :
  fst (fst (terminate_instance (fun _ => ex_tenv) Resolve.ex_mgr "i-0123456789abcdef0")) =
  Raise ConnectionError /\
  ~ In (Retry.Call (TerminateInstances "i-0123456789abcdef0"))
      (snd (terminate_instance (fun _ => ex_tenv) Resolve.ex_mgr "i-0123456789abcdef0")) /\
  In (Retry.Call (CancelSpotRequest "sir-0a1b2c3d"))
      (snd (terminate_instance (fun _ => ex_tenv) Resolve.ex_mgr "i-0123456789abcdef0")).
Proof.
  vm_compute. split; [reflexivity|]. split.
  - intros H. repeat destruct H as [H|H]; try discriminate; contradiction.
  - right; right; left; reflexivity.
Qed.

(** One attempt on a resolved instance carrying a spot-request reference:
    the name listings of the resolution, the description, the cancel
    request, then the terminate request unless the cancel raised something
    other than a [ClientError]. *)
Lemma terminate_attempt_spot (T : tenv) (m : Resolve.manager)
    (identifier instance_id sid : string) (inst : instance_detail) :
  let o := Resolve.resolve_instance_identifier (resolver T) m identifier false in
  Resolve.res o = Return (Some instance_id) ->
  instance_id <> "" ->
  describe_by_id T instance_id = Return (Some inst) ->
  SpotInstanceRequestId inst = Some sid ->
  sid <> "" ->
  let calls := map ListByName (Resolve.log o) ++
               [DescribeById instance_id; CancelSpotRequest sid] in
  terminate_attempt T m identifier =
    match cancel_spot T sid with
    | Raise ConnectionError => (Raise ConnectionError, Resolve.mgr o, calls)
    | Raise OtherException => (Raise OtherException, Resolve.mgr o, calls)
    | Raise SystemExit => (Raise SystemExit, Resolve.mgr o, calls)
    | _ => (match terminate T instance_id with
            | Return _ => Return true
            | Raise (ClientError _) => Return false
            | Raise e => Raise e
            end, Resolve.mgr o, calls ++ [TerminateInstances instance_id])
    end.
Proof.
  intros o Hres Hid Hdesc Hsid Hsid' calls. subst calls.
  unfold terminate_attempt. fold o. rewrite Hres.
  assert (Ht : Create.str_truthy (Some instance_id) = true)
    by (simpl; apply negb_true_iff, String.eqb_neq; exact Hid).
  rewrite Ht. simpl negb. cbv iota. cbn [Create.default_to]. rewrite Hdesc.
  unfold cancel_step. rewrite Hsid.
  assert (Hs : Create.str_truthy (Some sid) = true)
    by (simpl; apply negb_true_iff, String.eqb_neq; exact Hsid').
  rewrite Hs. cbn [Create.default_to].
  destruct (cancel_spot T sid) as [u|[code| | |]];
    try (rewrite <- !app_assoc; reflexivity);
    destruct (terminate T instance_id) as [v|[c| | |]];
    rewrite <- !app_assoc; reflexivity.
Qed.

(** C7 (amended): on every attempt [k] of the decorated call (attempts 0
    to 3) on a resolved instance carrying a spot-request reference, the
    cancel request is sent before any terminate request.  When the cancel
    succeeds or fails with a [ClientError], the attempt goes on to the
    terminate request, and when that succeeds the decorated call returns
    [True] with attempt [k]'s calls.  When the cancel cannot reach the
    endpoint (a network error: no credentials, connection or connect
    timeout), the attempt ends right after the cancel request; the
    decorator then sleeps and runs attempt [k + 1] if [k < 3], and lets
    the error propagate on attempt 3. *)
Theorem terminate_cancels_then_terminates (Tk : nat -> tenv) (k : nat) (m : Resolve.manager)
    (identifier instance_id sid : string) (inst : instance_detail) :
  k <= 3 ->
  let o := Resolve.resolve_instance_identifier (resolver (Tk k)) m identifier false in
  Resolve.res o = Return (Some instance_id) ->
  instance_id <> "" ->
  describe_by_id (Tk k) instance_id = Return (Some inst) ->
  SpotInstanceRequestId inst = Some sid ->
  sid <> "" ->
  let calls := map ListByName (Resolve.log o) ++
               [DescribeById instance_id; CancelSpotRequest sid] in
  terminate_instance Tk m identifier = terminate_from Tk 0 m identifier /\
  (cancel_tolerated (cancel_spot (Tk k) sid) = true ->
   snd (terminate_attempt (Tk k) m identifier) = calls ++ [TerminateInstances instance_id] /\
   (terminate (Tk k) instance_id = Return tt ->
    terminate_from Tk k m identifier =
      (Return true, Resolve.mgr o,
       Retry.Attempt k :: map Retry.Call (calls ++ [TerminateInstances instance_id])))) /\
  (cancel_spot (Tk k) sid = Raise ConnectionError ->
   terminate_attempt (Tk k) m identifier = (Raise ConnectionError, Resolve.mgr o, calls) /\
   terminate_from Tk k m identifier =
     if Nat.ltb k 3 then
       (let '(r2, s2, t2) := terminate_from Tk (S k) (Resolve.mgr o) identifier in
        (r2, s2, (Retry.Attempt k :: map Retry.Call calls) ++
                 Retry.Sleep (Retry.backoff (QArith_base.inject_Z 2) k) :: t2))
     else (Raise ConnectionError, Resolve.mgr o, Retry.Attempt k :: map Retry.Call calls)).
Proof.
  intros Hk o Hres Hid Hdesc Hsid Hsid' calls.
  pose proof (terminate_attempt_spot (Tk k) m identifier instance_id sid inst
                Hres Hid Hdesc Hsid Hsid') as Hstep.
  fold o calls in Hstep.
  assert (Hfrom : terminate_from Tk k m identifier =
    Retry.retry_loop (fun j s => terminate_attempt (Tk j) s identifier)
      3 (QArith_base.inject_Z 2) k (S (3 - k)) m).
  { unfold terminate_from. f_equal. lia. }
  split; [reflexivity|]. split.
  - intros Hc. rewrite Hstep.
    destruct (cancel_spot (Tk k) sid) as [u|[code| | |]]; try discriminate Hc;
      (split; [reflexivity|]); intros Ht; rewrite Hfrom; cbn [Retry.retry_loop];
      rewrite Hstep, Ht; reflexivity.
  - intros Hc. rewrite Hstep, Hc. split; [reflexivity|].
    rewrite Hfrom. cbn [Retry.retry_loop]. rewrite Hstep, Hc.
    destruct (Nat.ltb_spec k 3) as [Hlt|Hge].
    + rewrite (proj2 (Nat.eqb_neq k 3)) by lia. reflexivity.
    + assert (k = 3) as -> by lia. reflexivity.
Qed.

(** C7 witness: attempt 0 cannot reach the endpoint when cancelling; on
    attempt 1 the provider refuses the cancel and the instance is
    terminated, so the decorated call returns [True]. *)
Lemma terminate_cancels_then_terminates_witness :
  terminate_instance ex_tenv_flaky Resolve.ex_mgr "i-0123456789abcdef0" =
  (Return true, Resolve.ex_mgr,
   [Retry.Attempt 0; Retry.Call (DescribeById "i-0123456789abcdef0");
    Retry.Call (CancelSpotRequest "sir-0a1b2c3d");
    Retry.Sleep (Retry.backoff (QArith_base.inject_Z 2) 0);
    Retry.Attempt 1; Retry.Call (DescribeById "i-0123456789abcdef0");
    Retry.Call (CancelSpotRequest "sir-0a1b2c3d");
    Retry.Call (TerminateInstances "i-0123456789abcdef0")]).
Proof.
  destruct (terminate_cancels_then_terminates ex_tenv_flaky 0 Resolve.ex_mgr
              "i-0123456789abcdef0" "i-0123456789abcdef0" "sir-0a1b2c3d"
              {| NameTag := Some "web"; SpotInstanceRequestId := Some "sir-0a1b2c3d" |})
    as [E0 [_ C0]]; [lia | reflexivity | discriminate | reflexivity | reflexivity
                    | discriminate |].
  destruct (terminate_cancels_then_terminates ex_tenv_flaky 1 Resolve.ex_mgr
              "i-0123456789abcdef0" "i-0123456789abcdef0" "sir-0a1b2c3d"
              {| NameTag := Some "web"; SpotInstanceRequestId := Some "sir-0a1b2c3d" |})
    as [_ [T1 _]]; [lia | reflexivity | discriminate | reflexivity | reflexivity
                   | discriminate |].
  destruct (C0 eq_refl) as [_ F0]. destruct (T1 eq_refl) as [_ F1].
  rewrite E0, F0. cbn [Nat.ltb Nat.leb]. cbn [Resolve.mgr].
  change (Resolve.mgr (Resolve.resolve_instance_identifier (resolver (ex_tenv_flaky 0))
            Resolve.ex_mgr "i-0123456789abcdef0" false)) with Resolve.ex_mgr.
  rewrite (F1 eq_refl). reflexivity.
Defined.

End TerminateProofs.

Module PyProofs.
Import Py.

Lemma sapp_assoc (a b c : string) : ((a ++ b) ++ c)%string = (a ++ (b ++ c))%string.
Proof. induction a as [|x a IH]; simpl; [reflexivity | now rewrite IH]. Qed.

Lemma sapp_nil_r (a : string) : (a ++ "")%string = a.
Proof. induction a as [|x a IH]; simpl; [reflexivity | now rewrite IH]. Qed.

Lemma slength_app (a b : string) :
  String.length (a ++ b) = (String.length a + String.length b)%nat.
Proof. induction a as [|x a IH]; simpl; [reflexivity | now rewrite IH]. Qed.

Lemma prefix_app (p x : string) : String.prefix p (p ++ x) = true.
Proof.
  induction p as [|a p IH]; simpl.
  - destruct x; reflexivity.
  - destruct (ascii_dec a a) as [_|n]; [exact IH | contradiction n; reflexivity].
Qed.

Lemma prefix_app_l (p a b : string) :
  String.prefix p a = true -> String.prefix p (a ++ b) = true.
Proof.
  revert a; induction p as [|x p IH]; intros a H; simpl.
  - destruct (a ++ b)%string; reflexivity.
  - destruct a as [|y a]; simpl in H; [discriminate|].
    simpl. destruct (ascii_dec x y); [apply IH; exact H | discriminate].
Qed.

Lemma contains_prefix (p x : string) : contains p (p ++ x) = true.
Proof.
  assert (H := prefix_app p x).
  destruct (p ++ x)%string; cbn [contains]; rewrite H; reflexivity.
Qed.

Lemma contains_app_r (p a b : string) :
  contains p b = true -> contains p (a ++ b) = true.
Proof.
  intros H. induction a as [|x a IH]; simpl; [exact H|].
  rewrite IH. apply orb_true_r.
Qed.

Lemma contains_app_l (p a b : string) :
  contains p a = true -> contains p (a ++ b) = true.
Proof.
  induction a as [|x a IH]; intros H.
  - destruct p as [|y p]; [destruct b; reflexivity|]. simpl in H. discriminate.
  - change (String x a ++ b)%string with (String x (a ++ b)).
    cbn [contains] in H |- *. apply orb_true_iff in H as [H|H].
    + apply orb_true_intro. left. exact (prefix_app_l p (String x a) b H).
    + rewrite IH by exact H. apply orb_true_r.
Qed.

(** [split] never returns an empty list. *)
Lemma split_nl_cons (s : string) : exists l ls, split_nl s = l :: ls.
Proof.
  induction s as [|c s [l [ls IH]]]; simpl; [eauto|].
  destruct (Ascii.eqb c nl); [eauto|]. rewrite IH. eauto.
Qed.

Lemma split_nl_app_nl (a b : string) :
  split_nl (a ++ String nl b) = split_nl a ++ split_nl b.
Proof.
  induction a as [|c a IH]; simpl; [reflexivity|].
  destruct (Ascii.eqb c nl); [now rewrite IH|].
  rewrite IH. destruct (split_nl_cons a) as [l [ls E]]. rewrite E. reflexivity.
Qed.

(** A line without a newline splits into itself. *)
Lemma prefix_cons (a b : ascii) (p s : string) :
  String.prefix (String a p) (String b s) =
  if ascii_dec a b then String.prefix p s else false.
Proof. reflexivity. Qed.

Lemma contains_cons (p : string) (c : ascii) (s : string) :
  contains p (String c s) = String.prefix p (String c s) || contains p s.
Proof. reflexivity. Qed.

Lemma split_nl_cons_eq (c : ascii) (s : string) :
  split_nl (String c s) =
  if Ascii.eqb c nl then "" :: split_nl s
  else match split_nl s with
       | l :: ls => String c l :: ls
       | [] => [String c ""]
       end.
Proof. reflexivity. Qed.

(** A line without a newline splits into itself. *)
Lemma split_nl_single (s : string) :
  contains nl_str s = false -> split_nl s = [s].
Proof.
  induction s as [|c s IH]; intros H; [reflexivity|].
  rewrite contains_cons in H. unfold nl_str at 1 in H. rewrite prefix_cons in H.
  apply orb_false_iff in H as [H1 H2].
  destruct (ascii_dec nl c) as [e|ne]; [destruct s; discriminate|].
  rewrite split_nl_cons_eq, (proj2 (Ascii.eqb_neq c nl)) by congruence.
  rewrite IH by exact H2. reflexivity.
Qed.

Lemma split_join_nl (l : list string) :
  l <> [] -> Forall (fun x => contains nl_str x = false) l ->
  split_nl (join nl_str l) = l.
Proof.
  induction l as [|x l IH]; intros Hne Hall; [contradiction|].
  inversion Hall as [|? ? Hx Hl]; subst.
  destruct l as [|y l].
  - simpl. apply split_nl_single, Hx.
  - change (join nl_str (x :: y :: l)) with (x ++ String nl (join nl_str (y :: l)))%string.
    rewrite split_nl_app_nl, split_nl_single by exact Hx.
    rewrite IH by (discriminate || exact Hl). reflexivity.
Qed.

Lemma split_nl_empty (s : string) : split_nl s = [""] -> s = "".
Proof.
  destruct s as [|c s]; simpl; [reflexivity|].
  destruct (Ascii.eqb c nl).
  - intros H. injection H as H. destruct (split_nl_cons s) as [l [ls E]].
    rewrite E in H. discriminate.
  - destruct (split_nl_cons s) as [l [ls E]]. rewrite E. discriminate.
Qed.

Lemma nl_space : is_space nl = true.
Proof. reflexivity. Qed.

(** The lines of [s.rstrip()] are the lines of [s] up to some line [y],
    which is stripped. *)
Lemma rstrip_cons (c : ascii) (s : string) :
  rstrip (String c s) =
  match rstrip s with
  | EmptyString => if is_space c then EmptyString else String c EmptyString
  | r => String c r
  end.
Proof. reflexivity. Qed.

(** The lines of [s.rstrip()] are the lines of [s] up to some line [y],
    which is stripped. *)
Lemma split_rstrip (s : string) :
  exists pre y post, split_nl s = pre ++ y :: post /\
                     split_nl (rstrip s) = pre ++ [rstrip y].
Proof.
  induction s as [|c s [pre [y [post [E1 E2]]]]].
  - exists [], "", []. split; reflexivity.
  - rewrite split_nl_cons_eq, E1, rstrip_cons.
    destruct (rstrip s) as [|c' r'] eqn:R.
    + (* [s] is blank *)
      assert (pre = [] /\ rstrip y = "") as [-> Ry].
      { destruct pre as [|p pre]; cbn in E2.
        - injection E2 as E2. auto.
        - injection E2 as _ E2. destruct pre; discriminate. }
      destruct (Ascii.eqb c nl) eqn:Nc.
      * assert (is_space c = true) as Sc.
        { apply Ascii.eqb_eq in Nc. subst c. reflexivity. }
        rewrite Sc. exists [], "", (y :: post). split; reflexivity.
      * exists [], (String c y), post. split; [reflexivity|].
        rewrite rstrip_cons, Ry.
        destruct (is_space c); [reflexivity|].
        cbn [app]. rewrite split_nl_cons_eq, Nc. reflexivity.
    + set (r := String c' r') in *.
      rewrite split_nl_cons_eq.
      destruct (Ascii.eqb c nl).
      * exists ("" :: pre), y, post. rewrite E2. split; reflexivity.
      * destruct pre as [|p pre].
        -- cbn [app] in E2 |- *. rewrite E2.
           assert (rstrip y <> "") as Ny.
           { intros Hy. rewrite Hy in E2. apply split_nl_empty in E2. discriminate. }
           exists [], (String c y), post. rewrite rstrip_cons.
           destruct (rstrip y) eqn:Ey; [contradiction Ny; reflexivity|].
           split; reflexivity.
        -- exists (String c p :: pre), y, post. rewrite E2. split; reflexivity.
Qed.

Lemma rstrip_lines (s x : string) :
  In x (split_nl (rstrip s)) ->
  exists y, In y (split_nl s) /\ (x = y \/ x = rstrip y).
Proof.
  destruct (split_rstrip s) as [pre [y [post [E1 E2]]]].
  rewrite E2, E1. intros H. apply in_app_or in H as [H|[H|[]]].
  - exists x. split; [apply in_or_app; left; exact H | left; reflexivity].
  - exists y. split; [apply in_or_app; right; left; reflexivity | right; congruence].
Qed.

(** [d[k] = v] keeps the keys distinct. *)
Lemma dict_set_keys {V} (k : string) (v : V) (d : dict V) :
  map fst (dict_set k v d) =
  if dict_mem k d then map fst d else map fst d ++ [k].
Proof.
  unfold dict_set. destruct (dict_mem k d); [|now rewrite map_app].
  rewrite map_map. apply map_ext. intros [k' v']. simpl.
  destruct (String.eqb_spec k' k); simpl; congruence.
Qed.

Lemma dict_mem_spec {V} (k : string) (d : dict V) :
  dict_mem k d = true <-> In k (map fst d).
Proof.
  unfold dict_mem. rewrite existsb_exists, in_map_iff. split.
  - intros [[k' v'] [H1 H2]]. apply String.eqb_eq in H2. simpl in H2. subst.
    exists (k, v'). auto.
  - intros [[k' v'] [H1 H2]]. simpl in H1. subst. exists (k, v').
    split; [exact H2 | apply String.eqb_refl].
Qed.

Lemma dict_set_nodup {V} (k : string) (v : V) (d : dict V) :
  NoDup (map fst d) -> NoDup (map fst (dict_set k v d)).
Proof.
  intros H. rewrite dict_set_keys. destruct (dict_mem k d) eqn:M; [exact H|].
  apply NoDup_app; auto using NoDup_cons, NoDup_nil.
  - intros x Hx [<-|[]]. apply (proj2 (dict_mem_spec k d)) in Hx. congruence.
Qed.

Lemma dict_set_in {V} (k : string) (v : V) (d : dict V) : In (k, v) (dict_set k v d).
Proof.
  unfold dict_set. destruct (dict_mem k d) eqn:M.
  - apply dict_mem_spec, in_map_iff in M as [[k' v'] [H1 H2]]. simpl in H1. subst.
    apply in_map_iff. exists (k, v'). rewrite String.eqb_refl. auto.
  - apply in_or_app. right. left. reflexivity.
Qed.

Lemma dict_set_other {V} (k k' : string) (v v' : V) (d : dict V) :
  k' <> k -> In (k', v') d -> In (k', v') (dict_set k v d).
Proof.
  intros Ne H. unfold dict_set. destruct (dict_mem k d).
  - apply in_map_iff. exists (k', v'). simpl.
    rewrite (proj2 (String.eqb_neq k' k) Ne). auto.
  - apply in_or_app. left. exact H.
Qed.

Lemma dict_set_in_inv {V} (k k' : string) (v v' : V) (d : dict V) :
  In (k', v') (dict_set k v d) -> (k' = k /\ v' = v) \/ In (k', v') d.
Proof.
  unfold dict_set. destruct (dict_mem k d).
  - intros H. apply in_map_iff in H as [[a b] [E H]]. cbn [fst] in E.
    destruct (String.eqb a k); injection E as <- <-; [left; auto | right; exact H].
  - intros H. apply in_app_or in H as [H|[H|[]]]; [right; exact H|].
    injection H as <- <-. left. auto.
Qed.

(** After [d[k] = v] every entry of key [k] holds [v]. *)
Lemma dict_set_same_value {V} (k : string) (v w : V) (d : dict V) :
  In (k, w) (dict_set k v d) -> w = v.
Proof.
  unfold dict_set. destruct (dict_mem k d) eqn:M.
  - intros H. apply in_map_iff in H as [[a b] [E H]]. cbn [fst] in E.
    destruct (String.eqb_spec a k); injection E; [auto|congruence].
  - intros H. apply in_app_or in H as [H|[H|[]]]; [|injection H; auto].
    exfalso. assert (M' : dict_mem k d = true).
    { apply dict_mem_spec, in_map_iff. exists (k, w). auto. }
    congruence.
Qed.

Lemma dict_get_in {V} (k : string) (d : dict V) (v : V) :
  dict_get k d = Some v -> In (k, v) d.
Proof.
  induction d as [|[k' w] d IH]; cbn [dict_get]; [discriminate|].
  destruct (String.eqb_spec k' k) as [<-|_].
  - intros [= <-]. left. reflexivity.
  - intros H. right. auto.
Qed.

Lemma dict_get_none {V} (k : string) (d : dict V) (v : V) :
  dict_get k d = None -> ~ In (k, v) d.
Proof.
  induction d as [|[k' w] d IH]; cbn [dict_get]; [auto|].
  destruct (String.eqb_spec k' k) as [_|Ne]; [discriminate|].
  intros H [E|Hin]; [injection E; congruence | exact (IH H Hin)].
Qed.

Lemma dict_get_unique {V} (k : string) (d : dict V) (v : V) :
  In (k, v) d -> (forall w, In (k, w) d -> w = v) -> dict_get k d = Some v.
Proof.
  intros Hin Hall. destruct (dict_get k d) eqn:G.
  - f_equal. apply Hall, dict_get_in, G.
  - exfalso. exact (dict_get_none k d v G Hin).
Qed.

(** ** The stable sorts *)
Section SortFacts.
Context {T K : Type} (key : T -> K) (cmp : K -> K -> comparison).
Hypothesis cmp_antisym : forall a b, cmp b a = CompOpp (cmp a b).
Hypothesis cmp_eq : forall a b, cmp a b = Eq -> a = b.
Hypothesis cmp_le_trans :
  forall a b c, cmp a b <> Gt -> cmp b c <> Gt -> cmp a c <> Gt.

Lemma cmp_refl (a : K) : cmp a a = Eq.
Proof.
  pose proof (cmp_antisym a a) as H. destruct (cmp a a); simpl in H; congruence.
Qed.

Lemma insert_desc_perm (x : T) (l : list T) :
  Permutation (insert_desc key cmp x l) (x :: l).
Proof.
  induction l as [|h t IH]; simpl; [reflexivity|].
  destruct (cmp (key h) (key x)); try reflexivity.
  rewrite IH. apply perm_swap.
Qed.

Lemma sort_desc_perm (l : list T) : Permutation (sort_desc key cmp l) l.
Proof.
  induction l as [|h t IH]; simpl; [reflexivity|].
  rewrite insert_desc_perm, IH. reflexivity.
Qed.

Definition key_ge (a b : T) : Prop := cmp (key a) (key b) <> Lt.

Lemma insert_desc_sorted (x : T) (l : list T) :
  Sorted key_ge l -> Sorted key_ge (insert_desc key cmp x l).
Proof.
  induction 1 as [|h t St IH Hd]; simpl; [repeat constructor|].
  destruct (cmp (key h) (key x)) eqn:C.
  - constructor; [constructor; assumption|]. constructor. unfold key_ge.
    rewrite cmp_antisym, C. discriminate.
  - constructor; [constructor; assumption|]. constructor. unfold key_ge.
    rewrite cmp_antisym, C. discriminate.
  - constructor; [exact IH|].
    destruct t as [|h' t]; simpl; [constructor; unfold key_ge; rewrite C; discriminate|].
    inversion Hd as [|? ? Hh]; subst.
    destruct (cmp (key h') (key x)); constructor; unfold key_ge;
      try (rewrite C; discriminate); exact Hh.
Qed.

Lemma sort_desc_sorted (l : list T) : Sorted key_ge (sort_desc key cmp l).
Proof.
  induction l as [|h t IH]; simpl; [constructor|]. apply insert_desc_sorted, IH.
Qed.

(** Stability: the elements of one key keep their order. *)
Definition has_key (k : K) (x : T) : bool :=
  match cmp (key x) k with Eq => true | _ => false end.

Lemma insert_desc_filter (k : K) (x : T) (l : list T) :
  filter (has_key k) (insert_desc key cmp x l) = filter (has_key k) (x :: l).
Proof.
  induction l as [|h t IH]; simpl; [reflexivity|].
  destruct (cmp (key h) (key x)) eqn:C; try reflexivity.
  simpl. rewrite IH. simpl. unfold has_key.
  destruct (cmp (key x) k) eqn:Cx; try reflexivity.
  apply cmp_eq in Cx. subst k.
  destruct (cmp (key h) (key x)) eqn:Ch; try discriminate. reflexivity.
Qed.

Lemma sort_desc_stable (k : K) (l : list T) :
  filter (has_key k) (sort_desc key cmp l) = filter (has_key k) l.
Proof.
  induction l as [|h t IH]; simpl; [reflexivity|].
  rewrite insert_desc_filter. simpl. rewrite IH. reflexivity.
Qed.

(** The head of the descending sort has the greatest key. *)
Lemma sort_desc_head (l : list T) (m : T) (rest : list T) :
  sort_desc key cmp l = m :: rest -> forall x, In x l -> cmp (key x) (key m) <> Gt.
Proof.
  intros E x Hx.
  assert (Hin : In x (m :: rest)).
  { rewrite <- E. apply (Permutation_in x (Permutation_sym (sort_desc_perm l)) Hx). }
  pose proof (sort_desc_sorted l) as S. rewrite E in S.
  apply Sorted_StronglySorted in S.
  - inversion S as [|? ? _ Hall]; subst.
    destruct Hin as [<-|Hin]; [rewrite cmp_refl; discriminate|].
    rewrite Forall_forall in Hall. specialize (Hall x Hin). unfold key_ge in Hall.
    rewrite cmp_antisym. destruct (cmp (key m) (key x)); simpl; congruence.
  - intros a b c Hab Hbc. unfold key_ge in *.
    intros Hac. apply (cmp_le_trans (key c) (key b) (key a)).
    + rewrite cmp_antisym. destruct (cmp (key b) (key c)); simpl; congruence.
    + rewrite cmp_antisym. destruct (cmp (key a) (key b)); simpl; congruence.
    + rewrite cmp_antisym, Hac. reflexivity.
Qed.

Lemma insert_asc_perm (x : T) (l : list T) :
  Permutation (insert_asc key cmp x l) (x :: l).
Proof.
  induction l as [|h t IH]; simpl; [reflexivity|].
  destruct (cmp (key x) (key h)); try reflexivity.
  rewrite IH. apply perm_swap.
Qed.

Lemma sort_asc_perm (l : list T) : Permutation (sort_asc key cmp l) l.
Proof.
  induction l as [|h t IH]; simpl; [reflexivity|].
  rewrite insert_asc_perm, IH. reflexivity.
Qed.

Definition key_le (a b : T) : Prop := cmp (key a) (key b) <> Gt.

Lemma insert_asc_sorted (x : T) (l : list T) :
  Sorted key_le l -> Sorted key_le (insert_asc key cmp x l).
Proof.
  induction 1 as [|h t St IH Hd]; simpl; [repeat constructor|].
  destruct (cmp (key x) (key h)) eqn:C.
  - constructor; [constructor; assumption|]. constructor. unfold key_le.
    rewrite C. discriminate.
  - constructor; [constructor; assumption|]. constructor. unfold key_le.
    rewrite C. discriminate.
  - constructor; [exact IH|].
    assert (key_le h x) as Hhx.
    { unfold key_le. rewrite cmp_antisym, C. discriminate. }
    destruct t as [|h' t]; simpl; [constructor; exact Hhx|].
    inversion Hd as [|? ? Hh]; subst.
    destruct (cmp (key x) (key h')); constructor; assumption.
Qed.

Lemma sort_asc_sorted (l : list T) : Sorted key_le (sort_asc key cmp l).
Proof.
  induction l as [|h t IH]; simpl; [constructor|]. apply insert_asc_sorted, IH.
Qed.

End SortFacts.

(** [String.compare] is a total order. *)
Lemma string_compare_eq (a b : string) : String.compare a b = Eq -> a = b.
Proof. apply String.compare_eq_iff. Qed.

Lemma string_compare_le_trans (a b c : string) :
  String.compare a b <> Gt -> String.compare b c <> Gt -> String.compare a c <> Gt.
Proof.
  revert b c. induction a as [|x a IH]; intros [|y b] [|z c]; simpl; try congruence.
  unfold Ascii.compare.
  destruct (N.compare_spec (N_of_ascii x) (N_of_ascii y)) as [Exy|Lxy|Gxy];
  destruct (N.compare_spec (N_of_ascii y) (N_of_ascii z)) as [Eyz|Lyz|Gyz];
  intros H1 H2; try congruence.
  - rewrite Exy, Eyz, N.compare_refl. apply IH with b; assumption.
  - rewrite Exy. rewrite (proj2 (N.compare_lt_iff _ _) Lyz). discriminate.
  - rewrite <- Eyz. rewrite (proj2 (N.compare_lt_iff _ _) Lxy). discriminate.
  - rewrite (proj2 (N.compare_lt_iff _ _) (N.lt_trans _ _ _ Lxy Lyz)). discriminate.
Qed.

Lemma Z_compare_le_trans (a b c : Z) :
  Z.compare a b <> Gt -> Z.compare b c <> Gt -> Z.compare a c <> Gt.
Proof. rewrite !Z.compare_le_iff. lia. Qed.

End PyProofs.
(** ** SSH configuration files *)
Module SshConfigProofs.
Import Py PyProofs SshConfig.

Lemma host_line_not_comment (line : string) :
  startswith line "Host " = true ->
  startswith line "# SpotMan managed entry for" = false.
Proof.
  unfold startswith. destruct line as [|c l]; [discriminate|].
  rewrite !prefix_cons. destruct (ascii_dec "H" c) as [<-|]; [reflexivity|discriminate].
Qed.

Lemma host_line_starts (h : string) : startswith ("Host " ++ h) "Host " = true.
Proof. apply prefix_app. Qed.

Lemma filter_lines_sub (h : string) (skip : bool) (lines : list string) (x : string) :
  In x (filter_lines h skip lines) -> In x lines.
Proof.
  revert skip. induction lines as [|line rest IH]; intros skip H; [exact H|].
  cbn [filter_lines] in H.
  destruct (startswith line "Host "), (String.eqb line ("Host " ++ h)),
    (startswith line "# SpotMan managed entry for" && contains h line), skip;
    try (destruct H as [<-|H]; [left; reflexivity|]); right; eapply IH; exact H.
Qed.

Lemma filter_lines_props (h : string) (skip : bool) (lines : list string)
    (x : string) :
  In x (filter_lines h skip lines) ->
  In x lines /\ x <> ("Host " ++ h)%string /\ is_managed_comment h x = false.
Proof.
  intros H. split; [eapply filter_lines_sub; exact H|].
  revert skip H. induction lines as [|line rest IH]; intros skip H; [destruct H|].
  cbn [filter_lines] in H.
  destruct (startswith line "Host ") eqn:Hs.
  - destruct (String.eqb_spec line ("Host " ++ h)) as [_|Ne]; [eapply IH; exact H|].
    destruct H as [<-|H]; [|eapply IH; exact H].
    split; [exact Ne|]. unfold is_managed_comment. rewrite host_line_not_comment by exact Hs.
    reflexivity.
  - destruct (startswith line "# SpotMan managed entry for" && contains h line) eqn:Hc;
      [eapply IH; exact H|].
    destruct skip; [eapply IH; exact H|].
    destruct H as [<-|H]; [|eapply IH; exact H].
    split; [|exact Hc]. intros ->. rewrite host_line_starts in Hs. discriminate.
Qed.

(** X: no line of the filtered config is [Host h] or a managed comment
    mentioning [h]. *)
Theorem filter_lines_drops_old_entry (h : string) (skip : bool) (lines : list string)
    (x : string) :
  In x (filter_lines h skip lines) ->
  In x lines /\ x <> ("Host " ++ h)%string /\ is_managed_comment h x = false.
Proof. apply filter_lines_props. Qed.

(** Witness: the entry of [web1] is dropped, the [db] entry stays. *)
Lemma filter_lines_drops_old_entry_witness :
  In "Host db" (filter_lines "web1" false
    ["Host web1"; "    HostName 1.2.3.4"; "Host db"; "    User u"]) /\
  (In "Host db" ["Host web1"; "    HostName 1.2.3.4"; "Host db"; "    User u"] /\
   "Host db" <> ("Host " ++ "web1")%string /\ is_managed_comment "web1" "Host db" = false).
Proof.
  split; [vm_compute; left; reflexivity|].
  apply (filter_lines_drops_old_entry "web1" false
           ["Host web1"; "    HostName 1.2.3.4"; "Host db"; "    User u"] "Host db").
  vm_compute. left. reflexivity.
Defined.

(** X: the [Host] lines of the other hosts all stay, in order. *)
Theorem filter_lines_keeps_other_hosts (h : string) (skip : bool) (lines : list string) :
  filter (other_host_line h) (filter_lines h skip lines) = filter (other_host_line h) lines.
Proof.
  revert skip. induction lines as [|line rest IH]; intros skip; [reflexivity|].
  cbn [filter_lines].
  destruct (startswith line "Host ") eqn:Hs.
  - destruct (String.eqb line ("Host " ++ h)) eqn:He.
    + assert (P : other_host_line h line = false).
      { unfold other_host_line. rewrite Hs, He. reflexivity. }
      cbn [filter]. rewrite P. apply IH.
    + assert (P : other_host_line h line = true).
      { unfold other_host_line. rewrite Hs, He. reflexivity. }
      cbn [filter]. rewrite P, IH. reflexivity.
  - assert (P : other_host_line h line = false).
    { unfold other_host_line. rewrite Hs. reflexivity. }
    destruct (startswith line "# SpotMan managed entry for" && contains h line);
      [cbn [filter]; rewrite P; apply IH|].
    destruct skip; cbn [filter]; rewrite P; apply IH.
Qed.

Lemma filter_lines_clean (h : string) (lines : list string) :
  (forall x, In x lines -> x <> ("Host " ++ h)%string /\ is_managed_comment h x = false) ->
  filter_lines h false lines = lines.
Proof.
  induction lines as [|line rest IH]; intros Hall; [reflexivity|].
  destruct (Hall line (or_introl eq_refl)) as [Ne Nc].
  cbn [filter_lines].
  destruct (startswith line "Host ").
  - rewrite (proj2 (String.eqb_neq _ _) Ne), IH; [reflexivity|].
    intros x Hx. apply Hall. right. exact Hx.
  - unfold is_managed_comment in Nc. rewrite Nc, IH; [reflexivity|].
    intros x Hx. apply Hall. right. exact Hx.
Qed.

(** X: filtering an already filtered config changes nothing. *)
Theorem filter_lines_idempotent (h : string) (skip : bool) (lines : list string) :
  filter_lines h false (filter_lines h skip lines) = filter_lines h skip lines.
Proof.
  apply filter_lines_clean. intros x Hx.
  apply filter_lines_props in Hx. tauto.
Qed.

Lemma split_nl_lines_no_nl (s y : string) :
  In y (split_nl s) -> contains nl_str y = false.
Proof.
  revert y. induction s as [|c s IH]; intros y H.
  - destruct H as [<-|[]]. reflexivity.
  - rewrite split_nl_cons_eq in H. destruct (Ascii.eqb c nl) eqn:Nc.
    + destruct H as [<-|H]; [reflexivity | apply IH, H].
    + destruct (split_nl_cons s) as [l [ls E]]. rewrite E in H.
      destruct H as [<-|H]; [|apply IH; rewrite E; right; exact H].
      rewrite contains_cons. unfold nl_str at 1. rewrite prefix_cons.
      destruct (ascii_dec nl c) as [e|_].
      * subst c. rewrite Ascii.eqb_refl in Nc. discriminate.
      * apply IH. rewrite E. left. reflexivity.
Qed.

Lemma join_cons_prefix (sep x : string) (l : list string) :
  exists t, join sep (x :: l) = (x ++ t)%string.
Proof.
  destruct l as [|y l].
  - exists "". simpl. symmetry. apply sapp_nil_r.
  - exists (sep ++ join sep (y :: l))%string. reflexivity.
Qed.

Lemma entry_lines_shape (iid h ip user : string) (idf : option string)
    (fwd : list port_forward) :
  exists rest,
    ssh_entry_lines iid h ip user idf fwd =
      ("# SpotMan managed entry for " ++ h ++ " (" ++ iid ++ ")")%string
      :: ("Host " ++ h)%string :: rest /\
    Forall (fun l => startswith l "    " = true) rest.
Proof.
  exists ([("    HostName " ++ ip)%string; ("    User " ++ user)%string]
          ++ (if Create.str_truthy idf
              then [("    IdentityFile " ++ Create.default_to idf "")%string] else [])
          ++ ["    StrictHostKeyChecking no"] ++ flat_map forward_lines fwd).
  split; [reflexivity|].
  apply Forall_app; split; [repeat constructor|].
  apply Forall_app; split; [destruct (Create.str_truthy idf); repeat constructor|].
  apply Forall_app; split; [repeat constructor|].
  apply Forall_forall. intros l Hl. apply in_flat_map in Hl as [f [_ Hf]].
    unfold forward_lines in Hf.
    destruct (port_truthy (local_port f) && port_truthy (remote_port f));
      [destruct Hf as [<-|[]]; reflexivity | destruct Hf].
Qed.

Lemma entry_count (iid h ip user : string) (idf : option string) (fwd : list port_forward) :
  count_occ string_dec (ssh_entry_lines iid h ip user idf fwd) ("Host " ++ h)%string = 1.
Proof.
  destruct (entry_lines_shape iid h ip user idf fwd) as [rest [-> Hrest]].
  cbn [count_occ].
  destruct (string_dec _ ("Host " ++ h)%string) as [E|_]; [discriminate E|].
  destruct (string_dec _ _) as [_|Ne]; [|contradiction Ne; reflexivity].
  f_equal. apply count_occ_not_In. intros Hin.
  rewrite Forall_forall in Hrest. specialize (Hrest _ Hin). discriminate Hrest.
Qed.

(** X: after [_add_ssh_config_entry] rewrites the file, it holds exactly one
    [Host h] line, and the file ends with the new entry's lines, provided
    no old line other than [Host h] itself becomes [Host h] by stripping
    trailing whitespace, and the entry's fields hold no newline. *)
Theorem add_ssh_config_entry_single_host (existing iid h ip user : string)
    (idf : option string) (fwd : list port_forward) :
  forallb (fun y => negb (String.eqb (rstrip y) ("Host " ++ h)%string) ||
                    String.eqb y ("Host " ++ h)%string)
    (split_nl existing) = true ->
  forallb (fun l => negb (contains nl_str l)) (ssh_entry_lines iid h ip user idf fwd)
    = true ->
  let lines := split_nl (updated_config existing h
                 (ssh_entry (ssh_entry_lines iid h ip user idf fwd))) in
  count_occ string_dec lines ("Host " ++ h)%string = 1 /\
  exists pre, lines = pre ++ ssh_entry_lines iid h ip user idf fwd ++ [""].
Proof.
  intros Hold Hnl lines.
  set (L := ssh_entry_lines iid h ip user idf fwd) in *.
  set (F := filter_lines h false (split_nl existing)).
  set (R := rstrip (join nl_str F)).
  assert (HL : Forall (fun x => contains nl_str x = false) L).
  { apply Forall_forall. intros x Hx. rewrite forallb_forall in Hnl.
    specialize (Hnl x Hx). destruct (contains nl_str x); [discriminate|reflexivity]. }
  assert (Hlines : lines = split_nl R ++ "" :: L ++ [""]).
  { unfold lines, updated_config, ssh_entry. fold F. fold R.
    change (nl_str ++ nl_str ++ join nl_str L ++ nl_str)%string
      with (String nl (String nl (join nl_str L ++ String nl "")))%string.
    rewrite split_nl_app_nl, split_nl_cons_eq, Ascii.eqb_refl, split_nl_app_nl.
    rewrite split_join_nl; [reflexivity| |exact HL].
    destruct (entry_lines_shape iid h ip user idf fwd) as [rest [E _]].
    fold L in E. rewrite E. discriminate. }
  split.
  - rewrite Hlines, count_occ_app. cbn [count_occ].
    destruct (string_dec "" ("Host " ++ h)%string) as [E|_]; [discriminate E|].
    pose proof (entry_count iid h ip user idf fwd) as EC. fold L in EC.
    rewrite count_occ_app, EC. cbn [count_occ].
    destruct (string_dec "" ("Host " ++ h)%string) as [E|_]; [discriminate E|].
    rewrite (proj1 (count_occ_not_In _ _ _)); [reflexivity|].
    intros Hin. apply rstrip_lines in Hin as [y [Hy Hxy]].
    destruct F as [|f fs] eqn:EF.
    + destruct Hy as [<-|[]]. destruct Hxy as [E|E]; discriminate E.
    + rewrite <- EF in Hy. rewrite split_join_nl in Hy.
      * pose proof (filter_lines_props h false (split_nl existing) y Hy)
          as [Hy0 [Ne _]].
        rewrite forallb_forall in Hold. specialize (Hold y Hy0).
        destruct Hxy as [E|E]; [congruence|].
        rewrite <- E, String.eqb_refl in Hold. cbn [negb orb] in Hold.
        apply String.eqb_eq in Hold. congruence.
      * rewrite EF. discriminate.
      * apply Forall_forall. intros x Hx. eapply split_nl_lines_no_nl.
        eapply filter_lines_sub. exact Hx.
  - exists (split_nl R ++ [""]). rewrite Hlines, <- app_assoc. reflexivity.
Qed.

(** Witness: replacing the entry of [web1] in a file that also holds [db]. *)
Lemma add_ssh_config_entry_single_host_witness :
  let existing := ("Host db" ++ nl_str ++ "    User u" ++ nl_str ++
                   "# SpotMan managed entry for web1 (i-0aa)" ++ nl_str ++
                   "Host web1" ++ nl_str ++ "    HostName 1.1.1.1" ++ nl_str)%string in
  forallb (fun y => negb (String.eqb (rstrip y) ("Host " ++ "web1")%string) ||
                    String.eqb y ("Host " ++ "web1")%string)
    (split_nl existing) = true /\
  forallb (fun l => negb (contains nl_str l))
    (ssh_entry_lines "i-0bb" "web1" "2.2.2.2" "ubuntu" (Some "~/.ssh/k.pem") []) = true /\
  (let lines := split_nl (updated_config existing "web1"
                  (ssh_entry (ssh_entry_lines "i-0bb" "web1" "2.2.2.2" "ubuntu"
                                (Some "~/.ssh/k.pem") []))) in
   count_occ string_dec lines ("Host " ++ "web1")%string = 1 /\
   exists pre, lines = pre ++ ssh_entry_lines "i-0bb" "web1" "2.2.2.2" "ubuntu"
                                (Some "~/.ssh/k.pem") [] ++ [""]).
Proof.
  intros existing. split; [vm_compute; reflexivity|]. split; [vm_compute; reflexivity|].
  apply add_ssh_config_entry_single_host; vm_compute; reflexivity.
Defined.

(** X: [_check_ssh_config_exists] tests [Host h] as a substring, so once
    the entry of a host [h ++ suffix] is written (e.g. [web10]), the check
    for [h] ([web1]) answers yes. *)
Theorem check_ssh_config_prefix_host (existing iid h suffix ip user : string)
    (idf : option string) (fwd : list port_forward) :
  check_ssh_config_exists
    (Some (updated_config existing (h ++ suffix)
             (ssh_entry (ssh_entry_lines iid (h ++ suffix) ip user idf fwd)))) h = true.
Proof.
  unfold check_ssh_config_exists, updated_config, ssh_entry.
  destruct (entry_lines_shape iid (h ++ suffix) ip user idf fwd) as [rest [-> _]].
  apply contains_app_r, contains_app_r, contains_app_r, contains_app_l.
  change (join nl_str (?c :: ?x :: rest)) with (c ++ nl_str ++ join nl_str (x :: rest))%string.
  apply contains_app_r, contains_app_r.
  destruct (join_cons_prefix nl_str ("Host " ++ h ++ suffix) rest) as [t ->].
  rewrite !sapp_assoc, <- (sapp_assoc "Host " h). apply contains_prefix.
Qed.

(** X: once [_ensure_ssh_include_setup] has succeeded, the main config
    holds the include line after its old content was kept, SpotMan's file
    exists, and running it again changes nothing. *)
Theorem ssh_include_setup_idempotent (path : string) (w1 w2 : bool) (f : ssh_files) :
  fst (ensure_ssh_include_setup path w1 f) = true ->
  let f1 := snd (ensure_ssh_include_setup path w1 f) in
  (exists c, main_config f1 = Some c /\ contains ("Include " ++ path) c = true /\
     (main_config f = Some c \/
      c = ("Include " ++ path ++ nl_str ++ nl_str ++
           Create.default_to (main_config f) "")%string)) /\
  spotman_config f1 <> None /\
  ensure_ssh_include_setup path w2 f1 = (true, f1).
Proof.
  intros Hok f1.
  assert (Again : forall g c, main_config g = Some c ->
            contains ("Include " ++ path) c = true -> spotman_config g <> None ->
            ensure_ssh_include_setup path w2 g = (true, g)).
  { intros [m [sc|]] c Hm C Hs; cbn in Hm, Hs; [|contradiction Hs; reflexivity].
    subst m. unfold ensure_ssh_include_setup. cbn [main_config spotman_config].
    rewrite C. reflexivity. }
  assert (Main : exists c, main_config f1 = Some c /\
            contains ("Include " ++ path) c = true /\
            (main_config f = Some c \/
             c = ("Include " ++ path ++ nl_str ++ nl_str ++
                  Create.default_to (main_config f) "")%string)).
  { unfold f1 in *. clear f1 Again. destruct f as [main sp].
    unfold ensure_ssh_include_setup in *. cbn [main_config spotman_config] in *.
    revert Hok.
    destruct sp as [sc|], main as [c|]; cbn [fst snd main_config spotman_config];
      try destruct (contains ("Include " ++ path) c) eqn:C;
      destruct w1; cbn [fst snd main_config spotman_config]; intros Hok;
      try discriminate Hok; eexists; (split; [reflexivity|]);
      first [ split; [exact C | left; reflexivity]
            | split; [apply contains_prefix | right; rewrite sapp_assoc; reflexivity] ]. }
  assert (Hsp : spotman_config f1 <> None).
  { unfold f1. clear. destruct f as [main [sc|]]; unfold ensure_ssh_include_setup;
      cbn [main_config spotman_config];
      [destruct main as [c|]; [destruct (contains _ c)|] |
       destruct main as [c|]; [destruct (contains _ c)|]];
      destruct w1; cbn; discriminate. }
  split; [exact Main|]. split; [exact Hsp|].
  destruct Main as [c [Hm [C _]]]. exact (Again f1 c Hm C Hsp).
Qed.

(** Witness: a first run on a config without the include line. *)
Lemma ssh_include_setup_idempotent_witness :
  let f := {| main_config := Some "Host a"; spotman_config := None |} in
  fst (ensure_ssh_include_setup "~/.ssh/spotman_config" true f) = true /\
  (let f1 := snd (ensure_ssh_include_setup "~/.ssh/spotman_config" true f) in
   (exists c, main_config f1 = Some c /\
      contains ("Include " ++ "~/.ssh/spotman_config") c = true /\
      (main_config f = Some c \/
       c = ("Include " ++ "~/.ssh/spotman_config" ++ nl_str ++ nl_str ++
            Create.default_to (main_config f) "")%string)) /\
   spotman_config f1 <> None /\
   ensure_ssh_include_setup "~/.ssh/spotman_config" false f1 = (true, f1)).
Proof.
  intros f. split; [vm_compute; reflexivity|].
  apply (ssh_include_setup_idempotent "~/.ssh/spotman_config" true false f).
  vm_compute. reflexivity.
Defined.

(** X: the include check is a substring test, so an include line that only
    appears commented out counts as present and the main config is left
    unchanged. *)
Theorem ssh_include_commented_out (path pre post : string) (w : bool)
    (sp : option string) :
  let f := {| main_config := Some (pre ++ "# Include " ++ path ++ post)%string;
              spotman_config := sp |} in
  fst (ensure_ssh_include_setup path w f) = true /\
  main_config (snd (ensure_ssh_include_setup path w f)) = main_config f.
Proof.
  intros f.
  assert (C : contains ("Include " ++ path) (pre ++ "# Include " ++ path ++ post) = true).
  { apply contains_app_r. change ("# Include " ++ path ++ post)%string
      with ("# " ++ ("Include " ++ path ++ post))%string.
    apply contains_app_r. rewrite <- sapp_assoc. apply contains_prefix. }
  unfold f, ensure_ssh_include_setup.
  destruct sp; cbn [fst snd main_config spotman_config]; rewrite C; split; reflexivity.
Qed.

Lemma sapp_cancel_l (p a b : string) : (p ++ a)%string = (p ++ b)%string -> a = b.
Proof.
  induction p as [|c p IH]; simpl; [auto|]. intros H. injection H as H. auto.
Qed.

(** X: [connect_to_instance], given an instance's name, looks up the host
    [spotman-<name>] that [create_instance] wrote only when the name is the
    instance's own id. *)
Theorem connect_host_misses_managed_entry (name instance_id : string) :
  connect_host_name name instance_id = managed_host_name name -> name = instance_id.
Proof.
  unfold connect_host_name, managed_host_name.
  destruct (startswith name "i-"); cbn [negb].
  - intros H. apply sapp_cancel_l in H. congruence.
  - intros H. apply (f_equal String.length) in H. rewrite slength_app in H.
    simpl in H. lia.
Qed.

(** Witness: an instance named by its own id. *)
Lemma connect_host_misses_managed_entry_witness :
  connect_host_name "i-0123456789abcdef0" "i-0123456789abcdef0" =
    managed_host_name "i-0123456789abcdef0" /\
  "i-0123456789abcdef0" = "i-0123456789abcdef0".
Proof.
  split; [reflexivity|].
  apply connect_host_misses_managed_entry. reflexivity.
Defined.

End SshConfigProofs.

(** ** Instance listing and the tags of create_instance *)
Module ListingProofs.
Import Py PyProofs SshConfig Listing.

(** The key [k] appears in [t] and all its entries hold [v]. *)
Definition tag_fixed (k v : string) (t : dict string) : Prop :=
  In (k, v) t /\ forall w, In (k, w) t -> w = v.

Lemma fixed_set_same (k v : string) (d : dict string) : tag_fixed k v (dict_set k v d).
Proof. split; [apply dict_set_in | intros w; apply dict_set_same_value]. Qed.

Lemma fixed_set_other (k v k' v' : string) (d : dict string) :
  k' <> k -> tag_fixed k v d -> tag_fixed k v (dict_set k' v' d).
Proof.
  intros Ne [Hin Hall]. split; [apply dict_set_other; auto|].
  intros w Hw. apply dict_set_in_inv in Hw as [[E _]|Hw]; [congruence | apply Hall, Hw].
Qed.

Lemma fixed_get_rev (k v : string) (t : dict string) :
  tag_fixed k v t -> dict_get k (rev t) = Some v.
Proof.
  intros [Hin Hall]. apply dict_get_unique; [apply in_rev in Hin; exact Hin|].
  intros w Hw. apply Hall. apply in_rev. exact Hw.
Qed.

Lemma fixed_get (k v : string) (t : dict string) :
  tag_fixed k v t -> dict_get k t = Some v.
Proof. intros [Hin Hall]. apply dict_get_unique; assumption. Qed.

Ltac fixed_step :=
  first [ apply fixed_set_same | apply fixed_set_other; [discriminate|] ].

Lemma create_tags_fixed (profile_tags : dict string) (instance_name : string)
    (app_class : option string) (created_at profile_name : string) (spot hib : bool) :
  let t := create_tags profile_tags instance_name app_class created_at profile_name spot hib in
  tag_fixed "Name" instance_name t /\ tag_fixed "Profile" profile_name t /\
  (Create.str_truthy app_class = true ->
   tag_fixed "ApplicationClass" (Create.default_to app_class "") t) /\
  (hib = true -> tag_fixed "HibernationEnabled" "true" t).
Proof.
  intros t. unfold t, create_tags.
  destruct (Create.str_truthy app_class), spot, hib;
    (split; [|split; [|split]]); intros; try discriminate; repeat fixed_step.
Qed.

(** The field of the record built by the tag loop is the one of the last tag
    of its key. *)
Lemma fold_apply_tag_field {A : Type} (k : string) (get : instance_info -> A)
    (conv : string -> A) :
  (forall info v, get (apply_tag info (k, v)) = conv v) ->
  (forall info k' v, k' <> k -> get (apply_tag info (k', v)) = get info) ->
  forall tags info, get (fold_left apply_tag tags info) =
    match dict_get k (rev tags) with Some v => conv v | None => get info end.
Proof.
  intros Hk Ho tags. induction tags as [|[k' v] tags IH] using rev_ind; intros info;
    [reflexivity|].
  rewrite fold_left_app, rev_app_distr. cbn [fold_left rev app dict_get].
  destruct (String.eqb_spec k' k) as [<-|Ne]; [apply Hk|].
  rewrite Ho by exact Ne. apply IH.
Qed.

Ltac field_other :=
  intros ? k' ? Ne; cbn [apply_tag];
  rewrite (proj2 (String.eqb_neq k' _) Ne); reflexivity.

Lemma fixed_perm (k v : string) (t t' : dict string) :
  Permutation t t' -> tag_fixed k v t -> tag_fixed k v t'.
Proof.
  intros P [Hin Hall]. split; [exact (Permutation_in _ P Hin)|].
  intros w Hw. apply Hall. exact (Permutation_in _ (Permutation_sym P) Hw).
Qed.

(** X: an instance carrying the tags [create_instance] wrote, in whatever
    order the response lists them, is listed with that name and profile,
    its application class when one was given, and hibernation enabled when
    it was requested, whatever the profile's own tags held. *)
Theorem list_instances_reads_create_tags (i : ec2_instance) (profile_tags : dict string)
    (instance_name : string) (app_class : option string) (created_at profile_name : string)
    (spot hib : bool) :
  Permutation (Tags i)
    (create_tags profile_tags instance_name app_class created_at profile_name spot hib) ->
  let info := info_of i in
  i_Name info = instance_name /\ i_Profile info = profile_name /\
  (Create.str_truthy app_class = true ->
   i_ApplicationClass info = Create.default_to app_class "") /\
  (hib = true -> i_HibernationEnabled info = true).
Proof.
  intros Htags info. unfold info, info_of.
  pose proof (Permutation_sym Htags) as P.
  destruct (create_tags_fixed profile_tags instance_name app_class created_at profile_name
              spot hib) as [HN [HP [HA HH]]].
  split; [|split; [|split]].
  - rewrite (fold_apply_tag_field "Name" i_Name (fun v => v));
      [| intros; reflexivity | field_other].
    rewrite (fixed_get_rev _ _ _ (fixed_perm _ _ _ _ P HN)). reflexivity.
  - rewrite (fold_apply_tag_field "Profile" i_Profile (fun v => v));
      [| intros; reflexivity | field_other].
    rewrite (fixed_get_rev _ _ _ (fixed_perm _ _ _ _ P HP)). reflexivity.
  - intros Ha.
    rewrite (fold_apply_tag_field "ApplicationClass" i_ApplicationClass (fun v => v));
      [| intros; reflexivity | field_other].
    rewrite (fixed_get_rev _ _ _ (fixed_perm _ _ _ _ P (HA Ha))). reflexivity.
  - intros Hh.
    rewrite (fold_apply_tag_field "HibernationEnabled" i_HibernationEnabled
               (fun v => String.eqb (lower v) "true"));
      [| intros; reflexivity | field_other].
    rewrite (fixed_get_rev _ _ _ (fixed_perm _ _ _ _ P (HH Hh))). reflexivity.
Qed.

(** Witness: profile tags carrying their own [Name], spot and hibernation,
    and a response listing the tags in reverse order. *)
Lemma list_instances_reads_create_tags_witness :
  let tags := create_tags [("Name", "old"); ("Team", "ml")] "web1" (Some "web")
                "2024-05-01T00:00:00" "dev" true true in
  let i := {| InstanceId := "i-0123456789abcdef0"; StateName := "running";
              InstanceType := "t3.small"; PublicIpAddress := Some "1.2.3.4";
              PrivateIpAddress := None; LaunchTime := 100%Z;
              InstanceLifecycle := Some "spot"; Tags := rev tags |} in
  Permutation (Tags i) tags /\
  (i_Name (info_of i) = "web1" /\ i_Profile (info_of i) = "dev" /\
   (Create.str_truthy (Some "web") = true ->
    i_ApplicationClass (info_of i) = Create.default_to (Some "web") "") /\
   (true = true -> i_HibernationEnabled (info_of i) = true)).
Proof.
  intros tags i.
  assert (P : Permutation (Tags i) tags)
    by (apply Permutation_sym, Permutation_rev).
  split; [exact P|].
  apply (list_instances_reads_create_tags i [("Name", "old"); ("Team", "ml")] "web1"
           (Some "web") "2024-05-01T00:00:00" "dev" true true).
  exact P.
Defined.

(** X: [update_ssh_config] names the entry of an instance created by
    [create_instance] exactly as [create_instance] did, [spotman-<name>],
    whatever the order of the tags in the response, even when the
    profile's tags carried their own [Name]. *)
Theorem update_ssh_config_host_matches_create (tags : list (string * string))
    (profile_tags : dict string)
    (instance_name : string) (app_class : option string) (created_at profile_name : string)
    (spot hib : bool) :
  Permutation tags
    (create_tags profile_tags instance_name app_class created_at profile_name spot hib) ->
  update_host_name tags = managed_host_name instance_name.
Proof.
  intros Htags. unfold update_host_name.
  destruct (create_tags_fixed profile_tags instance_name app_class created_at profile_name
              spot hib) as [HN _].
  apply (fixed_perm _ _ _ _ (Permutation_sym Htags)) in HN.
  assert (E : forall k t, first_tag k t = dict_get k t).
  { intros k t. induction t as [|[k' v] t IH]; cbn [first_tag dict_get];
      [reflexivity | rewrite IH; reflexivity]. }
  rewrite E, (fixed_get _ _ _ HN). reflexivity.
Qed.

(** Witness: the tags of a spot instance with its own [Name] in the
    profile, listed in reverse order. *)
Lemma update_ssh_config_host_matches_create_witness :
  let tags := create_tags [("Name", "old"); ("Team", "ml")] "web1" None
                "2024-05-01T00:00:00" "dev" true false in
  Permutation (rev tags) tags /\
  update_host_name (rev tags) = managed_host_name "web1".
Proof.
  intros tags.
  assert (P : Permutation (rev tags) tags)
    by (apply Permutation_sym, Permutation_rev).
  split; [exact P|].
  apply (update_ssh_config_host_matches_create (rev tags) [("Name", "old"); ("Team", "ml")]
           "web1" None "2024-05-01T00:00:00" "dev" true false).
  exact P.
Defined.

Lemma Sorted_weaken {A : Type} (R R' : A -> A -> Prop) (l : list A) :
  (forall a b, R a b -> R' a b) -> Sorted R l -> Sorted R' l.
Proof.
  intros Himp S. induction S as [|a l S IH Hd]; constructor; [exact IH|].
  destruct Hd; constructor. apply Himp. assumption.
Qed.

(** X: [list_instances] returns every instance of the response, newest
    launch first, and instances launched at the same time keep the
    response's order. *)
Theorem list_instances_newest_first
    (describe : list filter -> result (list (list ec2_instance)))
    (app_class state profile_name : option string) (all_instances : bool)
    (reservations : list (list ec2_instance)) :
  describe (list_filters app_class state profile_name all_instances) = Return reservations ->
  exists res,
    list_instances_body describe app_class state profile_name all_instances = Return res /\
    Permutation res (map info_of (concat reservations)) /\
    Sorted (fun a b => (i_LaunchTime b <= i_LaunchTime a)%Z) res /\
    (forall t, List.filter (fun x => Z.eqb (i_LaunchTime x) t) res =
               List.filter (fun x => Z.eqb (i_LaunchTime x) t)
                 (map info_of (concat reservations))).
Proof.
  intros Hd. unfold list_instances_body. rewrite Hd. eexists. split; [reflexivity|].
  set (l := map info_of (concat reservations)).
  assert (Anti : forall a b : Z, Z.compare b a = CompOpp (Z.compare a b)).
  { intros a b. apply Z.compare_antisym. }
  split; [apply sort_desc_perm|split].
  - apply (Sorted_weaken (key_ge i_LaunchTime Z.compare)); [|apply sort_desc_sorted, Anti].
    intros a b H. unfold key_ge in H. apply Z.ge_le. exact H.
  - intros t.
    assert (Ek : forall x, Z.eqb (i_LaunchTime x) t = has_key i_LaunchTime Z.compare t x).
    { intros x. unfold has_key. destruct (Z.eqb_spec (i_LaunchTime x) t) as [->|Ne].
      - rewrite Z.compare_refl. reflexivity.
      - destruct (Z.compare (i_LaunchTime x) t) eqn:C; [|reflexivity|reflexivity].
        apply Z.compare_eq in C. contradiction. }
    rewrite !(filter_ext _ _ Ek). apply sort_desc_stable. exact Z.compare_eq.
Qed.

(** Witness: two reservations, two instances launched at the same time. *)
Lemma list_instances_newest_first_witness :
  let mk id t := {| InstanceId := id; StateName := "running"; InstanceType := "t3.small";
                    PublicIpAddress := None; PrivateIpAddress := None; LaunchTime := t;
                    InstanceLifecycle := None; Tags := [] |} in
  let rs := [[mk "i-a" 5%Z; mk "i-b" 9%Z]; [mk "i-c" 5%Z]] in
  (fun _ : list filter => Return rs) (list_filters None None None false) = Return rs /\
  exists res,
    list_instances_body (fun _ => Return rs) None None None false = Return res /\
    Permutation res (map info_of (concat rs)) /\
    Sorted (fun a b => (i_LaunchTime b <= i_LaunchTime a)%Z) res /\
    (forall t, List.filter (fun x => Z.eqb (i_LaunchTime x) t) res =
               List.filter (fun x => Z.eqb (i_LaunchTime x) t) (map info_of (concat rs))).
Proof.
  intros mk rs. split; [reflexivity|].
  apply (list_instances_newest_first (fun _ => Return rs) None None None false rs).
  reflexivity.
Defined.

End ListingProofs.

(** ** Profiles *)
Module ProfilesProofs.
Import Py PyProofs Profiles.

Lemma substring_all (t : string) : String.substring 0 (String.length t) t = t.
Proof.
  induction t as [|c t IH]; [reflexivity|].
  cbn [String.length String.substring]. rewrite IH. reflexivity.
Qed.

Lemma substring_app (s t : string) :
  String.substring (String.length s) (String.length t) (s ++ t) = t.
Proof.
  induction s as [|c s IH]; [apply substring_all|]. exact IH.
Qed.

Lemma endswith_app (s suf : string) : endswith (s ++ suf) suf = true.
Proof.
  unfold endswith. rewrite slength_app.
  replace (String.length s + String.length suf - String.length suf)%nat
    with (String.length s) by lia.
  rewrite substring_app, String.eqb_refl, andb_true_r.
  apply Nat.leb_le. lia.
Qed.

Lemma before_last_dot_app (n t p : string) :
  before_last_dot t = Some p -> before_last_dot (n ++ t) = Some (n ++ p)%string.
Proof.
  intros H. induction n as [|c n IH]; [exact H|].
  cbn [append before_last_dot]. rewrite IH. reflexivity.
Qed.

Lemma profile_file_listed (files : list string) (name ext : string) :
  In (name ++ ext)%string files -> before_last_dot ext = Some "" ->
  is_profile_file (name ++ ext) = true ->
  In name (list_profiles (Some files)).
Proof.
  intros Hin Hd Hp. unfold list_profiles.
  apply (Permutation_in _ (Permutation_sym (sort_asc_perm (fun s => s) String.compare _))).
  apply in_map_iff. exists (name ++ ext)%string. split.
  - unfold rsplit_dot_head. rewrite (before_last_dot_app name ext "" Hd). apply sapp_nil_r.
  - apply filter_In. auto.
Qed.

Lemma existsb_eqb_in (x : string) (l : list string) :
  existsb (String.eqb x) l = true -> In x l.
Proof.
  intros H. apply existsb_exists in H as [y [Hy E]].
  apply String.eqb_eq in E. subst y. exact Hy.
Qed.

(** X: a profile stored only as [name.yml] is listed by [list_profiles],
    but [load_profile] looks for [name.yaml] and raises
    [FileNotFoundError]. *)
Theorem yml_profile_listed_not_loadable {Doc : Type}
    (load_yaml : string -> result (option Doc)) (files : list string) (name : string) :
  existsb (String.eqb (name ++ ".yml")) files = true ->
  existsb (String.eqb (name ++ ".yaml")) files = false ->
  In name (list_profiles (Some files)) /\
  load_profile load_yaml files name = Raise OtherException.
Proof.
  intros Hyml Hyaml. split.
  - apply (profile_file_listed files name ".yml"); [apply existsb_eqb_in, Hyml|reflexivity|].
    unfold is_profile_file. rewrite (endswith_app name ".yml"). apply orb_true_r.
  - unfold load_profile, get_profile. rewrite Hyaml. reflexivity.
Qed.

(** Witness: [web.yml] next to [db.yaml]. *)
Lemma yml_profile_listed_not_loadable_witness :
  existsb (String.eqb ("web" ++ ".yml")) ["web.yml"; "db.yaml"] = true /\
  existsb (String.eqb ("web" ++ ".yaml")) ["web.yml"; "db.yaml"] = false /\
  (In "web" (list_profiles (Some ["web.yml"; "db.yaml"])) /\
   load_profile (fun _ => Return (Some 0%nat)) ["web.yml"; "db.yaml"] "web"
     = Raise OtherException).
Proof.
  split; [reflexivity|]. split; [reflexivity|].
  apply yml_profile_listed_not_loadable; reflexivity.
Defined.

(** X: a [name.yaml] that is empty or fails to load with an [Exception] is
    listed by [list_profiles], yet [load_profile] raises
    [FileNotFoundError] for it. *)
Theorem broken_profile_listed_not_loadable {Doc : Type}
    (load_yaml : string -> result (option Doc)) (files : list string) (name : string) :
  existsb (String.eqb (name ++ ".yaml")) files = true ->
  match load_yaml (name ++ ".yaml")%string with
  | Return None => true
  | Return (Some _) => false
  | Raise e => is_Exception e
  end = true ->
  In name (list_profiles (Some files)) /\
  load_profile load_yaml files name = Raise OtherException.
Proof.
  intros Hyaml Hload. split.
  - apply (profile_file_listed files name ".yaml"); [apply existsb_eqb_in, Hyaml|reflexivity|].
    unfold is_profile_file. rewrite (endswith_app name ".yaml"). reflexivity.
  - unfold load_profile, get_profile. rewrite Hyaml. cbn [negb].
    destruct (load_yaml (name ++ ".yaml")%string) as [[d|]|e];
      [discriminate | reflexivity | rewrite Hload; reflexivity].
Qed.

(** Witness: an empty [db.yaml]. *)
Lemma broken_profile_listed_not_loadable_witness :
  existsb (String.eqb ("db" ++ ".yaml")) ["db.yaml"] = true /\
  match (fun _ : string => Return (@None nat)) ("db" ++ ".yaml")%string with
  | Return None => true
  | Return (Some _) => false
  | Raise e => is_Exception e
  end = true /\
  (In "db" (list_profiles (Some ["db.yaml"])) /\
   load_profile (fun _ => Return (@None nat)) ["db.yaml"] "db" = Raise OtherException).
Proof.
  split; [reflexivity|]. split; [reflexivity|].
  apply broken_profile_listed_not_loadable; reflexivity.
Defined.

Lemma count_two {A : Type} (f : A -> string) (P : A -> bool) (l : list A) (a b : A)
    (y : string) :
  In a l -> In b l -> a <> b -> P a = true -> P b = true -> f a = y -> f b = y ->
  (2 <= count_occ string_dec (map f (List.filter P l)) y)%nat.
Proof.
  intros Ha Hb Nab Pa Pb Fa Fb. induction l as [|x l IH]; [destruct Ha|].
  assert (One : forall c, In c l -> P c = true -> f c = y ->
                (0 < count_occ string_dec (map f (List.filter P l)) y)%nat).
  { intros c Hc Pc Fc. apply count_occ_In, in_map_iff. exists c.
    split; [exact Fc|]. apply filter_In. auto. }
  cbn [List.filter].
  destruct Ha as [->|Ha].
  - destruct Hb as [E|Hb]; [contradiction Nab|].
    rewrite Pa. cbn [map count_occ].
    destruct (string_dec (f a) y) as [_|Ne]; [|contradiction].
    specialize (One b Hb Pb Fb). lia.
  - destruct Hb as [->|Hb].
    + rewrite Pb. cbn [map count_occ].
      destruct (string_dec (f b) y) as [_|Ne]; [|contradiction].
      specialize (One a Ha Pa Fa). lia.
    + specialize (IH Ha Hb).
      destruct (P x); cbn [map count_occ]; [destruct (string_dec (f x) y)|]; lia.
Qed.

(** X: a profile stored both as [name.yaml] and [name.yml] appears at least
    twice in [list_profiles]. *)
Theorem profile_listed_twice (files : list string) (name : string) :
  existsb (String.eqb (name ++ ".yaml")) files = true ->
  existsb (String.eqb (name ++ ".yml")) files = true ->
  (2 <= count_occ string_dec (list_profiles (Some files)) name)%nat.
Proof.
  intros Hyaml Hyml. unfold list_profiles.
  rewrite (proj1 (Permutation_count_occ string_dec _ _)
             (sort_asc_perm (fun s => s) String.compare _) name).
  apply (count_two rsplit_dot_head is_profile_file files
           (name ++ ".yaml")%string (name ++ ".yml")%string).
  - apply existsb_eqb_in, Hyaml.
  - apply existsb_eqb_in, Hyml.
  - intros E. apply SshConfigProofs.sapp_cancel_l in E. discriminate E.
  - unfold is_profile_file. rewrite (endswith_app name ".yaml"). reflexivity.
  - unfold is_profile_file. rewrite (endswith_app name ".yml"). apply orb_true_r.
  - unfold rsplit_dot_head. rewrite (before_last_dot_app name ".yaml" "" eq_refl).
    apply sapp_nil_r.
  - unfold rsplit_dot_head. rewrite (before_last_dot_app name ".yml" "" eq_refl).
    apply sapp_nil_r.
Qed.

(** Witness: [web.yaml] and [web.yml]. *)
Lemma profile_listed_twice_witness :
  existsb (String.eqb ("web" ++ ".yaml")) ["web.yaml"; "web.yml"] = true /\
  existsb (String.eqb ("web" ++ ".yml")) ["web.yaml"; "web.yml"] = true /\
  (2 <= count_occ string_dec (list_profiles (Some ["web.yaml"; "web.yml"])) "web")%nat.
Proof.
  split; [reflexivity|]. split; [reflexivity|].
  apply profile_listed_twice; reflexivity.
Defined.

End ProfilesProofs.

(** ** The newest AMI *)
Module ImagesProofs.
Import Py PyProofs Images.

Lemma string_compare_antisym (a b : string) :
  String.compare b a = CompOpp (String.compare a b).
Proof. apply String.compare_antisym. Qed.

Lemma string_eqb_has_key (k : string) (x : image) :
  String.eqb (CreationDate x) k = has_key CreationDate String.compare k x.
Proof.
  unfold has_key. destruct (String.eqb_spec (CreationDate x) k) as [->|Ne].
  - pose proof (String.compare_antisym k k) as A.
    destruct (String.compare k k); [reflexivity|discriminate A|discriminate A].
  - destruct (String.compare (CreationDate x) k) eqn:C; [|reflexivity|reflexivity].
    apply String.compare_eq_iff in C. contradiction.
Qed.

(** X: the AMI [_get_latest_ami] returns is one of the images of the
    response, its [CreationDate] is the greatest, and among the images of
    that date it is the first of the response. *)
Theorem get_latest_ami_newest (describe_images : list Ami.filter -> result (list image))
    (os_type : string) (pattern : option string) (ami_id : string) :
  get_latest_ami_body describe_images os_type pattern = Return ami_id ->
  exists fs imgs img,
    Ami.latest_ami_filters os_type pattern = Return fs /\
    describe_images fs = Return imgs /\
    In img imgs /\ ImageId img = ami_id /\
    (forall x, In x imgs -> String.compare (CreationDate x) (CreationDate img) <> Gt) /\
    hd_error (List.filter (fun x => String.eqb (CreationDate x) (CreationDate img)) imgs)
      = Some img.
Proof.
  unfold get_latest_ami_body.
  destruct (Ami.latest_ami_filters os_type pattern) as [fs|e] eqn:Hf; [|discriminate].
  destruct (describe_images fs) as [imgs|e] eqn:Hd; [|discriminate].
  unfold latest_image.
  destruct (sort_desc CreationDate String.compare imgs) as [|img rest] eqn:S;
    [discriminate|].
  intros [= <-]. exists fs, imgs, img.
  split; [first [exact Hf | reflexivity]|]. split; [first [exact Hd | reflexivity]|].
  split; [|split; [reflexivity|split]].
  - apply (Permutation_in _ (sort_desc_perm CreationDate String.compare imgs)).
    rewrite S. left. reflexivity.
  - apply (sort_desc_head CreationDate String.compare string_compare_antisym
             string_compare_le_trans imgs img rest S).
  - rewrite (filter_ext _ _ (fun x => string_eqb_has_key (CreationDate img) x)).
    rewrite <- (sort_desc_stable CreationDate String.compare string_compare_eq), S.
    cbn [List.filter]. rewrite <- string_eqb_has_key, String.eqb_refl. reflexivity.
Qed.

(** Witness: two images of the same date and an older one. *)
Lemma get_latest_ami_newest_witness :
  let imgs := [{| ImageId := "ami-1"; Name := "a"; CreationDate := "2024-01-01" |};
               {| ImageId := "ami-2"; Name := "b"; CreationDate := "2024-03-01" |};
               {| ImageId := "ami-3"; Name := "c"; CreationDate := "2024-03-01" |}] in
  get_latest_ami_body (fun _ => Return imgs) "ubuntu" None = Return "ami-2" /\
  exists fs imgs' img,
    Ami.latest_ami_filters "ubuntu" None = Return fs /\
    (fun _ : list Ami.filter => Return imgs) fs = Return imgs' /\
    In img imgs' /\ ImageId img = "ami-2" /\
    (forall x, In x imgs' -> String.compare (CreationDate x) (CreationDate img) <> Gt) /\
    hd_error (List.filter (fun x => String.eqb (CreationDate x) (CreationDate img)) imgs')
      = Some img.
Proof.
  intros imgs. split; [vm_compute; reflexivity|].
  apply (get_latest_ami_newest (fun _ => Return imgs) "ubuntu" None "ami-2").
  vm_compute. reflexivity.
Defined.

End ImagesProofs.

(** ** Spot placement scores *)
Module CapacityProofs.
Import Py PyProofs Capacity.

(** Where a key of the result comes from: the zone name the lookup gave
    for the item's zone id, or the zone id itself when the lookup raised;
    the item's region in regional mode. *)
Definition score_origin (describe_az : string -> result (list string)) (single_az : bool)
    (item : score_item) (k : string) : Prop :=
  if single_az then
    exists az_id, AvailabilityZoneId item = Some az_id /\
      ((exists zs, describe_az az_id = Return (k :: zs)) \/
       (k = az_id /\ exists e, describe_az az_id = Raise e))
  else Region item = Some k.

Lemma scores_loop_raise (describe_az : string -> result (list string)) (single_az : bool)
    (items : list score_item) (acc : dict Z) (e : exn) :
  scores_loop describe_az single_az items acc = Raise e -> e = OtherException.
Proof.
  revert acc. induction items as [|item rest IH]; intros acc H; cbn [scores_loop] in H;
    [discriminate|].
  revert H. unfold score_of.
  destruct single_az.
  - destruct (AvailabilityZoneId item) as [az_id|]; [|apply IH].
    destruct (describe_az az_id) as [[|z zs]|e'];
      [apply IH| destruct (Score item); [apply IH|congruence]
      | destruct (Score item); [apply IH|congruence]].
  - destruct (Region item); [|apply IH].
    destruct (Score item); [apply IH|congruence].
Qed.

Lemma scores_loop_sound (describe_az : string -> result (list string)) (single_az : bool)
    (items : list score_item) (acc sc : dict Z) :
  scores_loop describe_az single_az items acc = Return sc ->
  NoDup (map fst acc) ->
  NoDup (map fst sc) /\
  forall k v, In (k, v) sc -> In (k, v) acc \/
    exists item, In item items /\ Score item = Some v /\
                 score_origin describe_az single_az item k.
Proof.
  revert acc. induction items as [|item rest IH]; intros acc H Nd;
    cbn [scores_loop] in H.
  - injection H as <-. split; [exact Nd|]. intros k v Hin. left. exact Hin.
  - lazymatch goal with |- ?G =>
      assert (Skip : scores_loop describe_az single_az rest acc = Return sc -> G);
      [|assert (Add : forall k0 v0, Score item = Some v0 ->
                  score_origin describe_az single_az item k0 ->
                  scores_loop describe_az single_az rest (dict_set k0 v0 acc) = Return sc -> G)]
    end.
    + intros H'. destruct (IH acc H' Nd) as [N S]. split; [exact N|].
      intros k v Hin. destruct (S k v Hin) as [A|[it [Hi R]]]; [left; exact A|].
      right. exists it. split; [right; exact Hi | exact R].
    + intros k0 v0 Hs Ho H'. destruct (IH _ H' (dict_set_nodup _ _ _ Nd)) as [N S].
      split; [exact N|]. intros k v Hin.
      destruct (S k v Hin) as [A|[it [Hi R]]].
      * apply dict_set_in_inv in A as [[-> ->]|A]; [|left; exact A].
        right. exists item. split; [left; reflexivity | split; assumption].
      * right. exists it. split; [right; exact Hi | exact R].
    + revert H. unfold score_of.
      destruct single_az eqn:B.
      * destruct (AvailabilityZoneId item) as [az_id|] eqn:Haz; [|exact Skip].
        destruct (describe_az az_id) as [[|z zs]|e'] eqn:Hd; [exact Skip| |];
          destruct (Score item) as [s|] eqn:Hs; try discriminate.
        -- apply (Add z s eq_refl). cbn. exists az_id. split; [exact Haz|].
           left. exists zs. first [exact Hd | reflexivity].
        -- apply (Add az_id s eq_refl). cbn. exists az_id. split; [exact Haz|].
           right. split; [reflexivity|]. exists e'. first [exact Hd | reflexivity].
      * destruct (Region item) as [r|] eqn:Hr; [|exact Skip].
        destruct (Score item) as [s|] eqn:Hs; [|discriminate].
        apply (Add r s eq_refl). cbn. first [exact Hr | reflexivity].
Qed.

(** X: [get_spot_capacity_scores] raises nothing but a [SystemExit] of the
    placement call; the dictionary it returns has each zone (or region)
    once, and each entry carries the score of an item of the response for
    the zone name the lookup gave, or for the zone id when the lookup
    raised. *)
Theorem capacity_scores_sound (placement : placement_request -> result (list score_item))
    (describe_az : string -> result (list string)) (region : string)
    (instance_types : list string) (target_capacity : Z) (single_az : bool) :
  let params := {| InstanceTypes := firstn 10 instance_types;
                   TargetCapacity := target_capacity;
                   SingleAvailabilityZone := single_az;
                   RegionNames := [region] |} in
  match get_spot_capacity_scores placement describe_az region instance_types
          target_capacity single_az with
  | Raise e => e = SystemExit /\ placement params = Raise SystemExit
  | Return sc =>
      NoDup (map fst sc) /\
      forall k v, In (k, v) sc ->
        exists items item, placement params = Return items /\ In item items /\
          Score item = Some v /\ score_origin describe_az single_az item k
  end.
Proof.
  intros params. unfold get_spot_capacity_scores. fold params.
  destruct (placement params) as [items|e] eqn:Hp.
  - destruct (scores_loop describe_az single_az items []) as [sc|e] eqn:Hl.
    + destruct (scores_loop_sound describe_az single_az items [] sc Hl (NoDup_nil _))
        as [N S].
      split; [exact N|]. intros k v Hin.
      destruct (S k v Hin) as [[]|[item [Hi [Hs Ho]]]].
      exists items, item. auto.
    + rewrite (scores_loop_raise _ _ _ _ _ Hl). cbn.
      split; [constructor|]. intros k v [].
  - destruct e; cbn; try (split; [constructor | intros k v []]). auto.
Qed.

End CapacityProofs.

(** ** The instances table *)
Module TableProofs.
Import Py PyProofs Listing Table.

Lemma spaces_length (n : nat) : String.length (spaces n) = n.
Proof. induction n as [|n IH]; cbn; [reflexivity | rewrite IH; reflexivity]. Qed.

Lemma ljust_length (s : string) (w : nat) :
  (String.length s <= w)%nat -> String.length (ljust s w) = w.
Proof. intros H. unfold ljust. rewrite slength_app, spaces_length. lia. Qed.

Lemma widen_fold (l : list instance_info) (w0 w1 w2 w3 w4 w5 : nat) :
  exists v0 v1 v2 v3 v4 v5,
    fold_left widen l [w0; w1; w2; w3; w4; w5] = [v0; v1; v2; v3; v4; v5] /\
    (w0 <= v0 /\ w1 <= v1 /\ w2 <= v2 /\ w3 <= v3 /\ w4 <= v4 /\ w5 <= v5)%nat /\
    forall i, In i l ->
      (String.length (i_Name i) <= v0 /\ String.length (i_InstanceId i) <= v1 /\
       String.length (i_InstanceType i) <= v2 /\ String.length (i_State i) <= v3 /\
       String.length (i_PublicIpAddress i) <= v4 /\ 19 <= v5)%nat.
Proof.
  revert w0 w1 w2 w3 w4 w5. induction l as [|i l IH]; intros w0 w1 w2 w3 w4 w5.
  - exists w0, w1, w2, w3, w4, w5. split; [reflexivity|]. split; [lia|]. intros ? [].
  - cbn [fold_left widen].
    destruct (IH (Nat.max w0 (String.length (i_Name i)))
                 (Nat.max w1 (String.length (i_InstanceId i)))
                 (Nat.max w2 (String.length (i_InstanceType i)))
                 (Nat.max w3 (String.length (i_State i)))
                 (Nat.max w4 (String.length (i_PublicIpAddress i)))
                 (Nat.max w5 19))
      as (v0 & v1 & v2 & v3 & v4 & v5 & E & Hle & Hall).
    exists v0, v1, v2, v3, v4, v5. split; [exact E|]. split; [lia|].
    intros j [<-|Hj]; [lia | apply Hall, Hj].
Qed.

(** X: in [format_instances_table], when every rendered launch time fits
    in 19 characters, each row of an instance has the length of the header
    line (and of the dashed line under it). *)
Theorem format_table_rows_aligned (strftime : Z -> string)
    (instances : list instance_info) (i : instance_info) :
  (forall t, String.length (strftime t) <= 19)%nat -> In i instances ->
  String.length (row_line strftime instances i) = String.length (header_line instances).
Proof.
  intros Ht Hi. unfold row_line, header_line, widths.
  cbn [map headers String.length].
  destruct (widen_fold instances 4 11 4 5 9 11)
    as (v0 & v1 & v2 & v3 & v4 & v5 & -> & Hle & Hall).
  destruct (Hall i Hi) as (B0 & B1 & B2 & B3 & B4 & B5).
  specialize (Ht (i_LaunchTime i)).
  cbn [pad_cells row_cells headers combine map fst snd join].
  rewrite !slength_app, !ljust_length by (cbn [String.length]; lia).
  reflexivity.
Qed.

(** Witness: one instance with a long name. *)
Lemma format_table_rows_aligned_witness :
  let i := {| i_InstanceId := "i-0123456789abcdef0"; i_Name := "a-rather-long-name";
              i_State := "running"; i_InstanceType := "t3.small";
              i_PublicIpAddress := "N/A"; i_PrivateIpAddress := "10.0.0.1";
              i_LaunchTime := 0%Z; i_ApplicationClass := "N/A"; i_Profile := "N/A";
              i_SpotInstance := true; i_HibernationEnabled := false |} in
  (forall t : Z, String.length ((fun _ : Z => "2024-01-02 03:04:05") t) <= 19)%nat /\
  In i [i] /\
  String.length (row_line (fun _ => "2024-01-02 03:04:05") [i] i) =
    String.length (header_line [i]).
Proof.
  intros i. split; [intros t; simpl; lia|]. split; [left; reflexivity|].
  apply format_table_rows_aligned; [intros t; simpl; lia | left; reflexivity].
Defined.

End TableProofs.

(** ** User data of a new instance *)
Module UserDataProofs.
Import Py PyProofs UserData.

(** X: the profile's script ends up verbatim at the end of the user data,
    alone or after the [#!/bin/bash] update header and a newline. *)
Theorem final_user_data_keeps_script (update_os : bool) (os_type s : string) :
  String.eqb s "" = false ->
  final_user_data update_os os_type (Some s) = s \/
  (update_os = true /\ startswith (update_script os_type) "#!/bin/bash" = true /\
   final_user_data update_os os_type (Some s) = (update_script os_type ++ nl_str ++ s)%string).
Proof.
  intros Hs. unfold final_user_data. cbn [Create.str_truthy Create.default_to].
  unfold Create.str_truthy in *. rewrite Hs. cbn [negb].
  destruct update_os; [|left; reflexivity].
  unfold update_script.
  destruct (String.eqb os_type "ubuntu"); [right; split; [reflexivity|split; reflexivity]|].
  destruct (String.eqb os_type "amazon-linux");
    [right; split; [reflexivity|split; reflexivity]|].
  destruct (String.eqb os_type "centos"); [right; split; [reflexivity|split; reflexivity]|].
  left. reflexivity.
Qed.

(** Witness: an ubuntu profile script with OS updates. *)
Lemma final_user_data_keeps_script_witness :
  String.eqb "echo hi" "" = false /\
  (final_user_data true "ubuntu" (Some "echo hi") = "echo hi" \/
   (true = true /\ startswith (update_script "ubuntu") "#!/bin/bash" = true /\
    final_user_data true "ubuntu" (Some "echo hi") =
      (update_script "ubuntu" ++ nl_str ++ "echo hi")%string)).
Proof.
  split; [reflexivity|]. apply final_user_data_keeps_script. reflexivity.
Defined.

(** X: for an OS other than ubuntu, amazon-linux and centos, [update_os]
    has no effect on the user data. *)
Theorem update_os_ignored_for_other_os (os_type : string) (user_data : option string) :
  existsb (String.eqb os_type) ["ubuntu"; "amazon-linux"; "centos"] = false ->
  final_user_data true os_type user_data = final_user_data false os_type user_data.
Proof.
  cbn [existsb]. intros H.
  apply orb_false_iff in H as [H1 H]. apply orb_false_iff in H as [H2 H].
  apply orb_false_iff in H as [H3 _].
  unfold final_user_data, update_script. rewrite H1, H2, H3. reflexivity.
Qed.

(** Witness: debian. *)
Lemma update_os_ignored_for_other_os_witness :
  existsb (String.eqb "debian") ["ubuntu"; "amazon-linux"; "centos"] = false /\
  final_user_data true "debian" (Some "echo hi") = final_user_data false "debian" (Some "echo hi").
Proof.
  split; [reflexivity|]. apply update_os_ignored_for_other_os. reflexivity.
Defined.

End UserDataProofs.

(** ** Stop, start, hibernate and resume *)
Module OpsProofs.
Import Ops.

Ltac in_list := repeat (first [left; reflexivity | right]).

(** A one-region setup whose listings find nothing, and an instance in the
    given state with hibernation configured. *)
Definition demo_manager : Resolve.manager :=
  {| Resolve.region := "us-east-1"; Resolve.ec2_client_region := "us-east-1";
     Resolve.ec2_resource_region := "us-east-1"; Resolve.session_profile := None;
     Resolve.regions_config_keys := ["us-east-1"] |}.

Definition demo_env (st : string) (stop_result : result unit) : oenv :=
  {| resolver := {| Resolve.describe_by_name := fun (_ _ : string) (_ : bool) => Return [];
                    Resolve.manager_init := fun _ => Return tt;
                    Resolve.client_init := fun _ => Return tt;
                    Resolve.resource_init := fun _ => Return tt |};
     describe_by_id := fun _ => Return (Some {| State := st; HibernateConfigured := Some true |});
     stop := fun _ _ => stop_result;
     start := fun _ => Return tt |}.

(** A remote side whose endpoint cannot be reached. *)
Definition down_env : oenv :=
  {| resolver := resolver (demo_env "running" (Return tt));
     describe_by_id := fun _ => Raise ConnectionError;
     stop := fun _ _ => Raise ConnectionError;
     start := fun _ => Raise ConnectionError |}.

(** Every remote call in the wrapper's trace was made by one of its
    attempts: the trace holds the block of that attempt, its [Attempt k]
    marker followed by the calls it made. *)
Lemma retry_loop_segment {St A C : Type} (func : nat -> St -> result A * St * list C)
    (max_retries : nat) (delay : Retry.Q) (attempt fuel : nat) (s : St) (c : C) :
  In (Retry.Call c) (snd (Retry.retry_loop func max_retries delay attempt fuel s)) ->
  exists k s0 pre post,
    snd (Retry.retry_loop func max_retries delay attempt fuel s) =
      pre ++ (Retry.Attempt k :: map Retry.Call (snd (func k s0))) ++ post /\
    In c (snd (func k s0)).
Proof.
  revert attempt s. induction fuel as [|fuel IH]; intros attempt s; [intros []|].
  cbn [Retry.retry_loop].
  destruct (func attempt s) as [[r s'] calls] eqn:F.
  destruct (Retry.retry_loop func max_retries delay (S attempt) fuel s') as [[r2 s2] t2] eqn:R.
  assert (Hr : forall post, In (Retry.Call c) (Retry.Attempt attempt :: map Retry.Call calls) ->
    exists k s0 pre post',
      (Retry.Attempt attempt :: map Retry.Call calls) ++ post =
        pre ++ (Retry.Attempt k :: map Retry.Call (snd (func k s0))) ++ post' /\
      In c (snd (func k s0))).
  { intros post [E|Hm]; [discriminate E|]. apply in_map_iff in Hm as [c' [E Hc]].
    injection E as ->. exists attempt, s, [], post. rewrite F. split; [reflexivity|exact Hc]. }
  assert (Here : In (Retry.Call c) (Retry.Attempt attempt :: map Retry.Call calls) ->
    exists k s0 pre post,
      Retry.Attempt attempt :: map Retry.Call calls =
        pre ++ (Retry.Attempt k :: map Retry.Call (snd (func k s0))) ++ post /\
      In c (snd (func k s0))).
  { intros H. destruct (Hr [] H) as [k [s0 [pre [post [E Hc]]]]].
    rewrite app_nil_r in E. exists k, s0, pre, post. split; [exact E|exact Hc]. }
  assert (Both : In (Retry.Call c) ((Retry.Attempt attempt :: map Retry.Call calls) ++
                   Retry.Sleep (Retry.backoff delay attempt) :: t2) ->
    exists k s0 pre post,
      (Retry.Attempt attempt :: map Retry.Call calls) ++
        Retry.Sleep (Retry.backoff delay attempt) :: t2 =
        pre ++ (Retry.Attempt k :: map Retry.Call (snd (func k s0))) ++ post /\
      In c (snd (func k s0))).
  { intros H. apply in_app_or in H as [H|[E|H]]; [exact (Hr _ H)|discriminate E|].
    destruct (IH (S attempt) s') as [k [s0 [pre [post [E Hc]]]]];
      [rewrite R; exact H|].
    rewrite R in E. cbn [snd] in E.
    exists k, s0, ((Retry.Attempt attempt :: map Retry.Call calls) ++
                   Retry.Sleep (Retry.backoff delay attempt) :: pre), post.
    split; [|exact Hc]. rewrite E, <- app_assoc. reflexivity. }
  destruct r as [a|[code| | | ]]; cbn [snd]; [exact Here| | |exact Here|exact Here].
  - destruct (Nat.eqb attempt max_retries); [exact Here|].
    destruct (negb (Retry.handle_aws_error code)); [exact Here | exact Both].
  - destruct (Nat.eqb attempt max_retries); [exact Here | exact Both].
Qed.

(** A call of one attempt other than a name listing was made by the body,
    on the name listings of the resolution. *)
Lemma with_instance_body (E : oenv) (m : Resolve.manager) (identifier : string)
    (k : string -> list call -> result bool * list call) (c : call) :
  In c (snd (with_instance E m identifier k)) ->
  (forall r, c <> ListByName r) ->
  exists id names,
    snd (with_instance E m identifier k) = snd (k id (map ListByName names)).
Proof.
  unfold with_instance.
  set (o := Resolve.resolve_instance_identifier (resolver E) m identifier false).
  assert (L : In c (map ListByName (Resolve.log o)) -> (forall r, c <> ListByName r) -> False).
  { intros H N. apply in_map_iff in H as [r [Ec _]]. destruct (N r). symmetry. exact Ec. }
  destruct (Resolve.res o) as [id_opt|e]; [|intros H N; destruct (L H N)].
  destruct (negb (Create.str_truthy id_opt)); [intros H N; destruct (L H N)|].
  destruct (k (Create.default_to id_opt "") (map ListByName (Resolve.log o))) as [r calls] eqn:K.
  intros _ _. exists (Create.default_to id_opt ""), (Resolve.log o). rewrite K. reflexivity.
Qed.

Lemma listings_no_other (names : list string) (c : call) :
  In c (map ListByName names) -> exists r, c = ListByName r.
Proof. intros H. apply in_map_iff in H as [r [<- _]]. exists r. reflexivity. Qed.

(** A stop request of [hibernate_body] comes last, right after the
    description of the same instance, which showed it ready. *)
Lemma hibernate_body_stop (E : oenv) (id' id : string) (names : list string) (h : bool) :
  In (StopInstances id h) (snd (hibernate_body E id' (map ListByName names))) ->
  h = true /\ id' = id /\
  snd (hibernate_body E id' (map ListByName names)) =
    map ListByName names ++ [DescribeById id; StopInstances id true] /\
  exists d, describe_by_id E id = Return (Some d) /\ hibernation_ready d = true.
Proof.
  unfold hibernate_body, describe_then.
  assert (Base : ~ In (StopInstances id h) (map ListByName names ++ [DescribeById id'])).
  { intros H. apply in_app_or in H as [H|[Ec|[]]]; [|discriminate Ec].
    destruct (listings_no_other _ _ H) as [r Ec]. discriminate Ec. }
  destruct (describe_by_id E id') as [[d|]|[code| | | ]] eqn:D; cbn [snd];
    try (intros H; contradiction (Base H)).
  destruct (match HibernateConfigured d with Some b => b | None => false end) eqn:Hc;
    destruct (String.eqb (State d) "running") eqn:Hs; cbn [negb snd];
    try (intros H; contradiction (Base H)).
  intros H. apply in_app_or in H as [H|[Ec|[]]]; [contradiction (Base H)|].
  injection Ec as <- <-. split; [reflexivity|]. split; [reflexivity|].
  split; [rewrite <- app_assoc; reflexivity|].
  exists d. split; [exact D|]. unfold hibernation_ready. rewrite Hc, Hs. reflexivity.
Qed.

(** A start request of [resume_body] comes last, right after the
    description of the same instance, which showed it stopped. *)
Lemma resume_body_start (E : oenv) (id' id : string) (names : list string) :
  In (StartInstances id) (snd (resume_body E id' (map ListByName names))) ->
  id' = id /\
  snd (resume_body E id' (map ListByName names)) =
    map ListByName names ++ [DescribeById id; StartInstances id] /\
  exists d, describe_by_id E id = Return (Some d) /\ State d = "stopped".
Proof.
  unfold resume_body, describe_then.
  assert (Base : ~ In (StartInstances id) (map ListByName names ++ [DescribeById id'])).
  { intros H. apply in_app_or in H as [H|[Ec|[]]]; [|discriminate Ec].
    destruct (listings_no_other _ _ H) as [r Ec]. discriminate Ec. }
  destruct (describe_by_id E id') as [[d|]|[code| | | ]] eqn:D; cbn [snd];
    try (intros H; contradiction (Base H)).
  destruct (String.eqb (State d) "running") eqn:Hr;
    [cbn [snd]; intros H; contradiction (Base H)|].
  destruct (String.eqb_spec (State d) "stopped") as [Hs|Hs]; cbn [negb snd];
    [|intros H; contradiction (Base H)].
  intros H. apply in_app_or in H as [H|[Ec|[]]]; [contradiction (Base H)|].
  injection Ec as <-. split; [reflexivity|].
  split; [rewrite <- app_assoc; reflexivity|].
  exists d. split; [exact D|exact Hs].
Qed.

(** X: [hibernate_instance] stops an instance only with [Hibernate=True],
    and only in an attempt whose description showed hibernation
    configured and the instance running: the stop request belongs to the
    block of some attempt [k] of the trace, which holds the name listings
    of the resolution, the description of that instance and the stop
    request, and attempt [k]'s description of it was ready. *)
Theorem hibernate_stops_only_ready (Ek : nat -> oenv) (m : Resolve.manager)
    (identifier id : string) (hibernate : bool) :
  In (Retry.Call (StopInstances id hibernate)) (snd (hibernate_instance Ek m identifier)) ->
  hibernate = true /\
  exists k pre post names d,
    snd (hibernate_instance Ek m identifier) =
      pre ++ Retry.Attempt k ::
        map Retry.Call (map ListByName names ++ [DescribeById id; StopInstances id true])
        ++ post /\
    describe_by_id (Ek k) id = Return (Some d) /\ hibernation_ready d = true.
Proof.
  unfold hibernate_instance, decorated, Retry.retry_on_aws_error.
  intros H. apply retry_loop_segment in H as [k [s0 [pre [post [Et Hc]]]]].
  cbn beta in Et, Hc.
  destruct (with_instance_body _ _ _ _ _ Hc ltac:(discriminate)) as [id' [names Ew]].
  rewrite Ew in Et, Hc.
  destruct (hibernate_body_stop _ _ _ _ _ Hc) as [-> [-> [Eb [d [Hd Hr]]]]].
  rewrite Eb in Et.
  split; [reflexivity|]. exists k, pre, post, names, d.
  split; [exact Et|]. split; [exact Hd|exact Hr].
Qed.

(** Witness: the endpoint is unreachable on attempt 0, and attempt 1 finds
    the instance running with hibernation configured. *)
Lemma hibernate_stops_only_ready_witness :
  let Ek := fun k : nat => match k with 0 => down_env | _ => demo_env "running" (Return tt) end in
  In (Retry.Call (StopInstances "i-0123456789abcdef0" true))
     (snd (hibernate_instance Ek demo_manager "i-0123456789abcdef0")) /\
  (true = true /\
   exists k pre post names d,
     snd (hibernate_instance Ek demo_manager "i-0123456789abcdef0") =
       pre ++ Retry.Attempt k ::
         map Retry.Call (map ListByName names ++
           [DescribeById "i-0123456789abcdef0"; StopInstances "i-0123456789abcdef0" true])
         ++ post /\
     describe_by_id (Ek k) "i-0123456789abcdef0" = Return (Some d) /\
     hibernation_ready d = true).
Proof.
  intros Ek.
  assert (H : In (Retry.Call (StopInstances "i-0123456789abcdef0" true))
                (snd (hibernate_instance Ek demo_manager "i-0123456789abcdef0")))
    by (vm_compute; in_list).
  split; [exact H|].
  apply (hibernate_stops_only_ready Ek demo_manager
           "i-0123456789abcdef0" "i-0123456789abcdef0" true).
  exact H.
Defined.

(** X: [resume_hibernated_instance] starts an instance only in an attempt
    whose description showed it [stopped]: the start request belongs to
    the block of some attempt [k] of the trace, which holds the name
    listings of the resolution, the description of that instance and the
    start request, and attempt [k]'s description of it was [stopped]. *)
Theorem resume_starts_only_stopped (Ek : nat -> oenv) (m : Resolve.manager)
    (identifier id : string) :
  In (Retry.Call (StartInstances id)) (snd (resume_hibernated_instance Ek m identifier)) ->
  exists k pre post names d,
    snd (resume_hibernated_instance Ek m identifier) =
      pre ++ Retry.Attempt k ::
        map Retry.Call (map ListByName names ++ [DescribeById id; StartInstances id])
        ++ post /\
    describe_by_id (Ek k) id = Return (Some d) /\ State d = "stopped".
Proof.
  unfold resume_hibernated_instance, decorated, Retry.retry_on_aws_error.
  intros H. apply retry_loop_segment in H as [k [s0 [pre [post [Et Hc]]]]].
  cbn beta in Et, Hc.
  destruct (with_instance_body _ _ _ _ _ Hc ltac:(discriminate)) as [id' [names Ew]].
  rewrite Ew in Et, Hc.
  destruct (resume_body_start _ _ _ _ Hc) as [-> [Eb [d [Hd Hs]]]].
  rewrite Eb in Et.
  exists k, pre, post, names, d.
  split; [exact Et|]. split; [exact Hd|exact Hs].
Qed.

(** Witness: the endpoint is unreachable on attempt 0, and attempt 1 finds
    the instance stopped. *)
Lemma resume_starts_only_stopped_witness :
  let Ek := fun k : nat => match k with 0 => down_env | _ => demo_env "stopped" (Return tt) end in
  In (Retry.Call (StartInstances "i-0123456789abcdef0"))
     (snd (resume_hibernated_instance Ek demo_manager "i-0123456789abcdef0")) /\
  exists k pre post names d,
    snd (resume_hibernated_instance Ek demo_manager "i-0123456789abcdef0") =
      pre ++ Retry.Attempt k ::
        map Retry.Call (map ListByName names ++
          [DescribeById "i-0123456789abcdef0"; StartInstances "i-0123456789abcdef0"])
        ++ post /\
    describe_by_id (Ek k) "i-0123456789abcdef0" = Return (Some d) /\ State d = "stopped".
Proof.
  intros Ek.
  assert (H : In (Retry.Call (StartInstances "i-0123456789abcdef0"))
                (snd (resume_hibernated_instance Ek demo_manager "i-0123456789abcdef0")))
    by (vm_compute; in_list).
  split; [exact H|].
  apply (resume_starts_only_stopped Ek demo_manager
           "i-0123456789abcdef0" "i-0123456789abcdef0").
  exact H.
Defined.

Lemma instance_id_truthy (identifier : string) :
  Resolve.is_instance_id identifier = true -> Create.str_truthy (Some identifier) = true.
Proof. destruct identifier; [discriminate|reflexivity]. Qed.

Lemma with_instance_id (E : oenv) (m : Resolve.manager) (identifier : string)
    (k : string -> list call -> result bool * list call) :
  Resolve.is_instance_id identifier = true ->
  with_instance E m identifier k =
  (fst (k identifier []), m, snd (k identifier [])).
Proof.
  intros Hid. unfold with_instance, Resolve.resolve_instance_identifier. rewrite Hid.
  cbn [Resolve.res Resolve.log Resolve.mgr Resolve.finish map].
  rewrite (instance_id_truthy _ Hid). cbn [negb Create.default_to].
  destruct (k identifier []). reflexivity.
Qed.

(** X: resuming an instance id the first description shows running
    answers [True] after that one description, with no start call. *)
Theorem resume_running_is_noop (Ek : nat -> oenv) (m : Resolve.manager)
    (instance_id : string) (d : detail) :
  Resolve.is_instance_id instance_id = true ->
  describe_by_id (Ek 0) instance_id = Return (Some d) ->
  String.eqb (State d) "running" = true ->
  resume_hibernated_instance Ek m instance_id =
  (Return true, m, [Retry.Attempt 0; Retry.Call (DescribeById instance_id)]).
Proof.
  intros Hid Hd Hs. unfold resume_hibernated_instance, decorated, Retry.retry_on_aws_error.
  cbn [Retry.retry_loop]. rewrite with_instance_id by exact Hid.
  unfold resume_body, describe_then. rewrite Hd, Hs. reflexivity.
Qed.

(** Witness: resuming an instance that is already running. *)
Lemma resume_running_is_noop_witness :
  Resolve.is_instance_id "i-0123456789abcdef0" = true /\
  describe_by_id (demo_env "running" (Return tt)) "i-0123456789abcdef0" =
    Return (Some {| State := "running"; HibernateConfigured := Some true |}) /\
  String.eqb (State {| State := "running"; HibernateConfigured := Some true |}) "running"
    = true /\
  resume_hibernated_instance (fun _ : nat => demo_env "running" (Return tt)) demo_manager
    "i-0123456789abcdef0" =
  (Return true, demo_manager,
   [Retry.Attempt 0; Retry.Call (DescribeById "i-0123456789abcdef0")]).
Proof.
  split; [reflexivity|]. split; [reflexivity|]. split; [reflexivity|].
  apply (resume_running_is_noop (fun _ : nat => demo_env "running" (Return tt)) demo_manager
           "i-0123456789abcdef0" {| State := "running"; HibernateConfigured := Some true |});
    reflexivity.
Defined.

(** X: a [ClientError] from [stop_instances] makes [stop_instance] answer
    [False] after one attempt, even for a code the wrapper would retry:
    the method's own [except ClientError] catches it first. *)
Theorem stop_client_error_not_retried (Ek : nat -> oenv) (m : Resolve.manager)
    (instance_id code : string) :
  Resolve.is_instance_id instance_id = true ->
  stop (Ek 0) instance_id false = Raise (ClientError code) ->
  stop_instance Ek m instance_id =
  (Return false, m, [Retry.Attempt 0; Retry.Call (StopInstances instance_id false)]).
Proof.
  intros Hid Hst. unfold stop_instance, decorated, Retry.retry_on_aws_error.
  cbn [Retry.retry_loop]. rewrite with_instance_id by exact Hid.
  unfold stop_body. rewrite Hst. reflexivity.
Qed.

(** Witness: a throttled [stop_instances]. *)
Lemma stop_client_error_not_retried_witness :
  Resolve.is_instance_id "i-0123456789abcdef0" = true /\
  stop (demo_env "running" (Raise (ClientError "Throttling"))) "i-0123456789abcdef0" false
    = Raise (ClientError "Throttling") /\
  stop_instance (fun _ : nat => demo_env "running" (Raise (ClientError "Throttling")))
    demo_manager "i-0123456789abcdef0" =
  (Return false, demo_manager,
   [Retry.Attempt 0; Retry.Call (StopInstances "i-0123456789abcdef0" false)]).
Proof.
  split; [reflexivity|]. split; [reflexivity|].
  apply (stop_client_error_not_retried
           (fun _ : nat => demo_env "running" (Raise (ClientError "Throttling"))) demo_manager
           "i-0123456789abcdef0" "Throttling"); reflexivity.
Defined.

(** X: when the identifier resolves to no instance, each of the four
    methods answers [False] on its first attempt and its only remote calls
    are the name listings of the resolution. *)
Theorem unresolved_identifier_no_action (Ek : nat -> oenv)
    (body : oenv -> string -> list call -> result bool * list call)
    (m : Resolve.manager) (identifier : string) :
  Resolve.res (Resolve.resolve_instance_identifier (resolver (Ek 0)) m identifier false)
    = Return None ->
  fst (fst (decorated Ek body m identifier)) = Return false /\
  forall c, In (Retry.Call c) (snd (decorated Ek body m identifier)) ->
    exists r, c = ListByName r.
Proof.
  intros Hn.
  set (o := Resolve.resolve_instance_identifier (resolver (Ek 0)) m identifier false) in Hn.
  assert (W : with_instance (Ek 0) m identifier (body (Ek 0)) =
              (Return false, Resolve.mgr o, map ListByName (Resolve.log o))).
  { unfold with_instance. fold o. rewrite Hn. reflexivity. }
  unfold decorated, Retry.retry_on_aws_error. cbn [Retry.retry_loop]. rewrite W.
  cbn [fst snd]. split; [reflexivity|].
  intros c [E|H]; [discriminate E|].
  apply in_map_iff in H as [c' [E H]]. injection E as ->.
  apply in_map_iff in H as [r [<- _]]. exists r. reflexivity.
Qed.

(** Witness: stopping a name no region knows. *)
Lemma unresolved_identifier_no_action_witness :
  Resolve.res (Resolve.resolve_instance_identifier
                 (resolver ((fun _ : nat => demo_env "running" (Return tt)) 0)) demo_manager
                 "web1" false) = Return None /\
  (fst (fst (decorated (fun _ : nat => demo_env "running" (Return tt)) stop_body demo_manager
               "web1")) = Return false /\
   forall c, In (Retry.Call c)
               (snd (decorated (fun _ : nat => demo_env "running" (Return tt)) stop_body
                       demo_manager "web1")) ->
     exists r, c = ListByName r).
Proof.
  split; [vm_compute; reflexivity|].
  apply unresolved_identifier_no_action. vm_compute. reflexivity.
Defined.

End OpsProofs.
